(** * Regression tutorials: battery cycle life (cnn_life_predict.ipynb)
      and fuel economy (exercise-1_keras.ipynb)

    A shallow embedding of the data handling of the two notebooks:
    the data loaders, the three-way split and the sample weights of
    [get_data], the preprocessing of the Auto MPG table, the label
    transform, and the parameter count of the dense networks.

    Numbers.  A float that is a number is a rational, so finite values are
    modelled in [Q] (battery notebook) and, where a square root is taken,
    in [R] (Auto MPG notebook); arithmetic is exact.  A value of type
    [option _] is a float cell: [None] stands for a float that is not a
    number ([nan] or [inf]), which is also how pandas marks a missing
    value. *)

From Stdlib Require Import ZArith QArith Reals Psatz List String Ascii.
From stdpp Require Import base list sorting gmap strings.
Import ListNotations.

(* ===================================================================== *)
(** * Part I: the programs *)
(* ===================================================================== *)

Module Battery.

Local Open Scope Z_scope.

(** ** Python and numpy primitives used by [get_data] *)

(** [sub in s] on Python strings. *)
Fixpoint contains (sub s : string) : bool :=
  String.prefix sub s ||
  match s with
  | EmptyString => false
  | String _ s' => contains sub s'
  end.

(** [np.int16(z)]: a 16-bit signed integer, wrap-around written out. *)
Definition int16 (z : Z) : Z := (z + 32768) mod 65536 - 32768.

(** [np.int16(0.2 * n)] for a count [n >= 0]: the product is truncated
    towards zero.  The double nearest to 0.2 lies above 0.2 by less than
    2^-56, so for the cell counts at hand the truncation is [n / 5]. *)
Definition int16_fifth (n : Z) : Z := int16 (n / 5).

(** [a[start:]] with Python's treatment of negative and large starts. *)
Definition slice_from {A} (start : Z) (a : list A) : list A :=
  let n := Z.of_nat (length a) in
  let s := if start <? 0 then Z.max (start + n) 0 else Z.min start n in
  drop (Z.to_nat s) a.

(** [np.sum(mask)] of a boolean array. *)
Definition np_sum (mask : list bool) : nat := length (filter Is_true mask).

(** [np.invert(mask)] and the product of two boolean arrays. *)
Definition np_invert (mask : list bool) : list bool := negb <$> mask.
Definition mask_mul (a b : list bool) : list bool := zip_with andb a b.

(** [a[mask] = v]: assignment through a boolean mask. *)
Definition mask_assign {A} (a : list A) (mask : list bool) (v : A) : list A :=
  zip_with (fun x (m : bool) => if m then v else x) a mask.

(** [a[mask]]: selection through a boolean mask. *)
Definition mask_select {A} (a : list A) (mask : list bool) : list A :=
  (filter (fun p : A * bool => Is_true p.2) (zip a mask)).*1.

(** [a[idx] = v]: assignment through an array of indices.  (NumPy raises
    on an index past the end, where the update below does nothing; the
    indices assigned through in [get_data] come out of [np.argsort] and are
    within the array.) *)
Definition index_assign {A} (a : list A) (idx : list nat) (v : A) : list A :=
  foldl (fun acc i => <[i := v]> acc) a idx.

(** ** The split of [get_data] (source lines 73-80 and 93-113) *)

(** The three data sets, the keys of the dictionaries [iD], [y] and [n]. *)
Inductive dset := trn | val | tst.

Definition dsetL : list dset := [trn; val; tst].

(** The batch label appended to [batchV] for the cell group [aname]. *)
Definition batch_code (aname : string) : Z :=
  if contains "Batch1" aname then 1
  else if contains "Batch2" aname then 2
  else if contains "Batch3" aname then 3
  else 0.

Section Split.

(** [np.argsort]: some array of indices that sorts its argument.  The
    default sort is not stable, so nothing but this is known of it; the
    proofs that need it assume exactly that (see [argsort_spec]). *)
Variable argsort : list Z -> list nat.

(** The names of the cell groups, in file order, and the [ncell] draws of
    [np.random.rand(ncell)], the [i]-th one being [rand i].  A draw is
    [k / 2^53] with [0 <= k < 2^53]; it is represented by its numerator
    [k], which keeps the order and the zero. *)
Variable anameL : list string.
Variable rand : nat -> Z.

Definition ncell : nat := length anameL.
Definition batchV : list Z := batch_code <$> anameL.

Definition iD_tst : list bool := (fun b => b =? 3) <$> batchV.
Definition ntst : nat := np_sum iD_tst.
Definition irst : list bool := np_invert iD_tst.
Definition nrst : Z := Z.of_nat ncell - Z.of_nat ntst.
Definition nval : Z := int16_fifth nrst.

Definition irnd : list Z := mask_assign (rand <$> seq 0 ncell) iD_tst 0.
Definition top_nval : list nat := slice_from (int16 (- nval)) (argsort irnd).

Definition iD_val : list bool := index_assign (replicate ncell false) top_nval true.
Definition iD_trn : list bool := mask_mul (np_invert iD_val) (np_invert iD_tst).

Definition iD (d : dset) : list bool :=
  match d with trn => iD_trn | val => iD_val | tst => iD_tst end.

(** [n[dset]], the number of cells of each set. *)
Definition n (d : dset) : nat := np_sum (iD d).

End Split.

(** What is assumed of [np.argsort]: its result is a permutation of the
    indices of its argument along which the values do not decrease. *)
Definition key (a : list Z) (i : nat) : Z := default 0 (a !! i).

(** [key_le a i j]: index [i] may come before index [j] when [a] is sorted. *)
Definition key_le (a : list Z) (i j : nat) : Prop := key a i <= key a j.

#[global] Instance key_le_dec (a : list Z) (i j : nat) : Decision (key_le a i j) :=
  Z.le_dec (key a i) (key a j).

Definition argsort_spec (argsort : list Z -> list nat) : Prop :=
  forall a : list Z,
    argsort a ≡ₚ seq 0 (length a) /\ StronglySorted (key_le a) (argsort a).

(** One such function, used to run the model: a merge sort of the indices
    by their values. *)
Definition np_argsort (a : list Z) : list nat :=
  merge_sort (key_le a) (seq 0 (length a)).

(** [i] is a member of the set whose mask is [mask]. *)
Definition member (mask : list bool) (i : nat) : Prop := mask !! i = Some true.

#[global] Instance member_dec (mask : list bool) (i : nat) : Decision (member mask i) :=
  decide (mask !! i = Some true).

(** ** The sample weights of [get_data] (source lines 131-144) *)

Local Open Scope Q_scope.

(** Float cells: [Some q] is the number [q], [None] is [nan] or [inf]. *)
Definition fdiv (a b : option Q) : option Q :=
  match a, b with
  | Some x, Some y => if Qeq_bool y 0 then None else Some (x / y)
  | _, _ => None
  end.

(** [np.mean] of an array of float cells. *)
Definition fsum (a : list (option Q)) : option Q :=
  foldr (fun c acc =>
           match c, acc with Some x, Some s => Some (x + s) | _, _ => None end)
        (Some 0) a.

Definition np_mean (a : list (option Q)) : option Q :=
  fdiv (fsum a) (Some (inject_Z (Z.of_nat (length a)))).

Definition qmin (x y : Q) : Q := if Qle_bool x y then x else y.
Definition qmax (x y : Q) : Q := if Qle_bool x y then y else x.

(** The range [np.histogram] bins over: [(0, 1)] for an empty array, the
    minimum and the maximum otherwise, widened by a half on both sides when
    they coincide. *)
Definition hist_range (a : list Q) : Q * Q :=
  let '(first, last) :=
    match a with
    | [] => (0, 1)
    | x :: r => (foldl qmin x r, foldl qmax x r)
    end in
  if Qeq_bool first last then (first - (1 # 2), last + (1 # 2)) else (first, last).

(** [np.linspace(first, last, num + 1)]: [num] steps from [first], the
    end point being [last] itself. *)
Definition linspace (first last : Q) (num : nat) : list Q :=
  let step := (last - first) / inject_Z (Z.of_nat num) in
  ((fun k => first + inject_Z (Z.of_nat k) * step) <$> seq 0 num) ++ [last].

(** The histogram's own bins: closed on the left and open on the right,
    but for the last one, which is closed on both sides. *)
Definition in_hist_bin (bins : nat) (edges : list Q) (ii : nat) (x : Q) : bool :=
  Qle_bool (nth ii edges 0) x &&
  (if (S ii =? bins)%nat then Qle_bool x (nth (S ii) edges 0)
   else negb (Qle_bool (nth (S ii) edges 0) x)).

Definition count (f : Q -> bool) (a : list Q) : Z :=
  Z.of_nat (length (filter (fun x => Is_true (f x)) a)).

(** [np.histogram(a, bins=bins, density=True)]: the densities and the bin
    edges; the density of a bin is its count over its width over the total
    count. *)
Definition np_histogram (a : list Q) (bins : nat) : list (option Q) * list Q :=
  let '(first, last) := hist_range a in
  let edges := linspace first last bins in
  let counts := (fun ii => count (in_hist_bin bins edges ii) a) <$> seq 0 bins in
  let total := fold_right Z.add 0%Z counts in
  let db ii := nth (S ii) edges 0 - nth ii edges 0 in
  let hist :=
    (fun ii => fdiv (fdiv (Some (inject_Z (nth ii counts 0%Z))) (Some (db ii)))
                    (Some (inject_Z total))) <$> seq 0 bins in
  (hist, edges).

(** The selection of the weight loop: the first bin takes both its edges,
    a later one is open on the left and closed on the right. *)
Definition sel (edges : list Q) (ii : nat) (x : Q) : bool :=
  let lwr := nth ii edges 0 in
  let upr := nth (S ii) edges 0 in
  if (ii =? 0)%nat then Qle_bool lwr x && Qle_bool x upr
  else negb (Qle_bool x lwr) && Qle_bool x upr.

Definition bins : nat := 4.

Definition hist (y_trn : list Q) : list (option Q) := (np_histogram y_trn bins).1.
Definition bin_edges (y_trn : list Q) : list Q := (np_histogram y_trn bins).2.

(** [invhist = np.mean(hist)/hist], cell by cell. *)
Definition invhist (y_trn : list Q) : list (option Q) :=
  fdiv (np_mean (hist y_trn)) <$> hist y_trn.

(** The loop over the bins, started from [np.ones(y['trn'].shape)]. *)
Definition weights (y_trn : list Q) : list (option Q) :=
  foldl (fun w ii =>
           zip_with (fun wj yj =>
                       if sel (bin_edges y_trn) ii yj
                       then nth ii (invhist y_trn) None else wj) w y_trn)
        (replicate (length y_trn) (Some 1)) (seq 0 bins).

(** ** [get_data] as a whole *)

(** A cell group of the file: its name and its cycles to 90 percent
    capacity.  (The voltage curves only feed the features [X], which no
    property below reads.) *)
Record cell := mk_cell { aname : string; cycfail : Q }.

Record data := mk_data {
  y : dset -> list Q;          (* the labels of each set *)
  n_cells : dset -> nat;       (* n[dset] *)
  masks : dset -> list bool;   (* iD[dset] *)
  sample_weights : list (option Q)
}.

Section GetData.

Variable argsort : list Z -> list nat.

(** [np.log10] on the floats that are numbers; the cycle counts are
    positive, so that their logarithms are numbers too. *)
Variable np_log10 : Q -> Q.

Definition get_data (cells : list cell) (rand : nat -> Z) (logy : bool) : data :=
  let anameL := aname <$> cells in
  let cycfailV := cycfail <$> cells in
  let iD := iD argsort anameL rand in
  let y d :=
    if logy then np_log10 <$> mask_select cycfailV (iD d)
    else mask_select cycfailV (iD d) in
  {| y := y;
     n_cells := fun d => np_sum (iD d);
     masks := iD;
     sample_weights := weights (y trn) |}.

End GetData.

End Battery.

(** ** The label transform and its inverse (exact arithmetic) *)

Module Labels.

Local Open Scope R_scope.

(** [np.log10] and [10**y] on the reals. *)
Definition log10 (x : R) : R := ln x / ln 10.
Definition pow10 (y : R) : R := Rpower 10 y.

(** The label of a cell with [cycfail] cycles to failure: [get_data],
    source lines 120-123. *)
Definition to_label (logy : bool) (cycfail : R) : R :=
  if logy then log10 cycfail else cycfail.

(** Back to cycles, as the parity plot and the error metrics do: source
    lines 353-358 and 405-410. *)
Definition of_label (logy : bool) (y : R) : R :=
  if logy then pow10 y else y.

End Labels.

(** ** The Auto MPG table (exercise-1_keras.ipynb) *)

Module AutoMPG.

Local Open Scope R_scope.

(** A cell of the table: [None] is pandas' NaN, a missing value or the
    result of 0/0.  (An infinity is not told apart from it; no cell of the
    table becomes one, since the only division is by the standard
    deviation, which is zero only when every deviation from the mean is.) *)
Abbreviation fcell := (option R).

#[global] Instance R_eq_dec : EqDecision R := Req_dec_T.
#[global] Instance Rle_decision (x y : R) : Decision (x <= y) := Rle_dec x y.

(** A line of the file as [pd.read_csv] parses it with [na_values = "?"],
    under the notebook's [column_names]. *)
Record car := mk_car {
  MPG : fcell;
  Cylinders : fcell;
  Displacement : fcell;
  Horsepower : fcell;
  Weight : fcell;
  Acceleration : fcell;
  Model_Year : fcell;
  Origin : fcell
}.

Definition cells (r : car) : list fcell :=
  [MPG r; Cylinders r; Displacement r; Horsepower r; Weight r;
   Acceleration r; Model_Year r; Origin r].

Definition isna (c : fcell) : bool := match c with None => true | Some _ => false end.

(** [data.dropna(inplace=True)]: a row any of whose cells is missing goes. *)
Definition dropna (data : list car) : list car :=
  filter (fun r => Is_true (forallb (fun c => negb (isna c)) (cells r))) data.

(** The label of a column: one of [column_names], or [prefix_value] for a
    column made by [pd.get_dummies]. *)
Inductive label :=
| Name (s : string)
| Dummy (prefix : string) (value : R).

#[global] Instance label_eq_dec : EqDecision label.
Proof. solve_decision. Defined.

(** A data frame, column by column. *)
Abbreviation frame := (list (label * list fcell)).

Definition to_frame (data : list car) : frame :=
  [ (Name "MPG", MPG <$> data);
    (Name "Cylinders", Cylinders <$> data);
    (Name "Displacement", Displacement <$> data);
    (Name "Horsepower", Horsepower <$> data);
    (Name "Weight", Weight <$> data);
    (Name "Acceleration", Acceleration <$> data);
    (Name "Model Year", Model_Year <$> data);
    (Name "Origin", Origin <$> data) ].

(** The numbers of a column; pandas' statistics skip the missing cells. *)
Definition numbers (c : list fcell) : list R := omap (fun x : option R => x) c.

Definition rsum (xs : list R) : R := foldr Rplus 0 xs.

(** [x.mean()]: NaN when there is no number to average. *)
Definition mean (c : list fcell) : fcell :=
  match numbers c with
  | [] => None
  | xs => Some (rsum xs / INR (length xs))
  end.

(** [x.std()], the sample standard deviation ([ddof = 1]): NaN unless
    there are at least two numbers. *)
Definition std (c : list fcell) : fcell :=
  let xs := numbers c in
  match mean c with
  | Some m =>
      if decide (length xs <= 1)%nat then None
      else Some (sqrt (rsum ((fun x => (x - m) ^ 2) <$> xs) / INR (length xs - 1)))
  | None => None
  end.

(** Arithmetic on cells; the division is guarded: no finite value comes
    out of a division by zero or by NaN. *)
Definition fsub (a b : fcell) : fcell :=
  match a, b with Some x, Some y => Some (x - y) | _, _ => None end.

Definition fdiv (a b : fcell) : fcell :=
  match a, b with
  | Some x, Some y => if decide (y = 0) then None else Some (x / y)
  | _, _ => None
  end.

(** [lambda x: (x - x.mean()) / x.std()], source line 214. *)
Definition normalize (x : list fcell) : list fcell :=
  (fun c => fdiv (fsub c (mean x)) (std x)) <$> x.

(** [pd.get_dummies(col, prefix=prefix)]: one indicator column for each
    value that occurs, in increasing order of the values. *)
Definition categories (col : list fcell) : list R :=
  merge_sort Rle (remove_dups (numbers col)).

Definition indicator (v : R) (c : fcell) : fcell :=
  match c with
  | Some x => if decide (x = v) then Some 1 else Some 0
  | None => Some 0
  end.

Definition get_dummies (col : list fcell) (prefix : string) : frame :=
  (fun v => (Dummy prefix v, indicator v <$> col)) <$> categories col.

(** [data.drop(name, axis=1)]. *)
Definition drop_column (data : frame) (name : label) : frame :=
  filter (fun p => p.1 <> name) data.

(** The one-hot encoding of the origin, source lines 136-164: the
    indicator columns are appended and the column itself is dropped. *)
Definition one_hot (data : list car) : frame :=
  let new_origin := get_dummies (Origin <$> data) "Origin" in
  drop_column (to_frame data ++ new_origin) (Name "Origin").

Definition y_col : label := Name "MPG".
Definition X_cols (data : frame) : list label := tail data.*1.

(** [data[X_cols] = data[X_cols].apply(f)]. *)
Definition apply_cols (f : list fcell -> list fcell) (cols : list label)
    (data : frame) : frame :=
  (fun p : label * list fcell => if decide (p.1 ∈ cols) then (p.1, f p.2) else p) <$> data.

Definition encoded (raw : list car) : frame := one_hot (dropna raw).

Definition preprocess (raw : list car) : frame :=
  let data := encoded raw in
  apply_cols normalize (X_cols data) data.

(** The input columns of a frame, with their cells. *)
Definition X_columns (data : frame) : list (list fcell) :=
  snd <$> filter (fun p => p.1 ∈ X_cols data) data.

(** A column that has two different numbers. *)
Definition varies (c : list fcell) : Prop :=
  exists a b : R, Some a ∈ c /\ Some b ∈ c /\ a <> b.

End AutoMPG.

(** ** The dense networks of the Keras exercise *)

Module Network.

Local Open Scope Z_scope.

Inductive activation := relu | linear.

(** [layers.Dense(units, activation=...)]. *)
Record Dense := mk_dense { units : Z; act : activation }.

(** [Sequential([...])] over inputs of shape [(input_dim,)]. *)
Record Sequential := mk_seq { input_dim : Z; layers : list Dense }.

(** The parameters of a dense layer that reads [n_in] values: one weight
    for each input and one bias, for each unit (the notebook's concept
    review, source lines 326-335). *)
Definition dense_params (n_in : Z) (l : Dense) : Z := (n_in + 1) * units l.

(** [model.count_params()]. *)
Definition count_params (m : Sequential) : Z :=
  (foldl (fun '(total, n_in) l => (total + dense_params n_in l, units l))
         (0, input_dim m) (layers m)).1.



(** [model.add(layer)]. *)
Definition add (m : Sequential) (l : Dense) : Sequential :=
  mk_seq (input_dim m) (layers m ++ [l]).

(** [build_model(n_layers, hidden_size)], source lines 637-644; the loop
    runs over [range(n_layers - 1)], empty when [n_layers <= 1]. *)
Definition build_model (n_X_cols : Z) (n_layers hidden_size : Z) : Sequential :=
  let model := mk_seq n_X_cols [mk_dense hidden_size relu] in
  let model :=
    foldl (fun m _ => add m (mk_dense hidden_size relu)) model
          (seq 0 (Z.to_nat (n_layers - 1))) in
  add model (mk_dense 1 linear).

(** [layers.Dense] checks its first argument: Keras raises [ValueError]
    for a number of units that is not positive. *)
Definition Dense_accepts (l : Dense) : bool := 0 <? units l.

(** The model that the calls of [layers.Dense] leave: none when one of
    them raises. *)
Definition constructed (m : Sequential) : option Sequential :=
  if forallb Dense_accepts (layers m) then Some m else None.

End Network.

(** ** The data loaders *)

Module Loader.

(** Python exceptions that the loaders can raise. *)
Inductive exn :=
| URLError          (* the fetch failed *)
| FileNotFound.     (* the file to open is not there *)

Inductive result (A : Type) :=
| Ok (a : A)
| Raise (e : exn).
Arguments Ok {A} a.
Arguments Raise {A} e.

Section World.

(** What a file holds. *)
Context {content : Type}.

(** The state the loaders act on: the local files, by path, and the
    requests sent to the network so far, oldest first. *)
Record world := mk_world {
  disk : gmap string content;
  requests : list string
}.

(** The answer of the network for a URL; [None] when the fetch fails. *)
Variable remote : string -> option content.

(** Stateful computations that may raise. *)
Definition io (A : Type) : Type := world -> result A * world.

Definition ret {A} (a : A) : io A := fun w => (Ok a, w).

Definition bind {A B} (m : io A) (k : A -> io B) : io B :=
  fun w =>
    match m w with
    | (Ok a, w') => k a w'
    | (Raise e, w') => (Raise e, w')
    end.

#[local] Instance io_ret : MRet io := @ret.
#[local] Instance io_bind : MBind io := fun A B k m => bind m k.

(** [request.urlretrieve(url, fname)]: one request; the answer is
    written to [fname], a failure is raised. *)
Definition urlretrieve (url fname : string) : io unit :=
  fun w =>
    let w' := mk_world (disk w) (requests w ++ [url]) in
    match remote url with
    | Some c => (Ok (), mk_world (<[fname := c]> (disk w)) (requests w'))
    | None => (Raise URLError, w')
    end.

(** Opening a file for reading ([h5py.File(fname, 'r')], [open]). *)
Definition open_file (fname : string) : io content :=
  fun w =>
    match disk w !! fname with
    | Some c => (Ok c, w)
    | None => (Raise FileNotFound, w)
    end.

(** The head of [get_data], source lines 43-48. *)
Definition remote_url : string :=
  "https://drive.google.com/uc?export=download&id=1orXDHcq2TzRLhGkHyWVtsuGn7_10pSAn".
Definition fname : string := "energy_capacity.h5".

Definition get_data_file : io content :=
  urlretrieve remote_url fname ;;
  open_file fname.

(** [keras.utils.get_file(fname, origin)], as Keras documents it: the
    file is looked up in the cache directory and downloaded only when it
    is not there; the path in the cache is returned. *)
Definition cache_dir : string := "~/.keras/datasets/".

Definition get_file (fname origin : string) : io string :=
  fun w =>
    let path := (cache_dir ++ fname)%string in
    match disk w !! path with
    | Some _ => (Ok path, w)
    | None => (urlretrieve origin path ;; mret path) w
    end.

(** The loader of the Keras exercise, source lines 58 and 87. *)
Definition auto_mpg_url : string :=
  "http://archive.ics.uci.edu/ml/machine-learning-databases/auto-mpg/auto-mpg.data".

Definition auto_mpg_file : io content :=
  dataset_path ← get_file "auto-mpg.data" auto_mpg_url;
  open_file dataset_path.

(** The requests that running [m] from [w] adds. *)
Definition sent {A} (m : io A) (w : world) : list string :=
  drop (length (requests w)) (requests (m w).2).

(** What caching asks of a loader: once a use has succeeded, the next
    one sends nothing. *)
Definition reuses_cache {A} (loader : io A) : Prop :=
  forall w a w', loader w = (Ok a, w') -> sent loader w' = [].

End World.

Arguments world : clear implicits.

End Loader.

(** ** Views of the arrays used to state properties *)

Module Views.

(** The density [hist[ii]] of [np.histogram(y_trn, bins=4, density=True)],
    written out for one bin. *)
Definition density (ys : list Q) (ii : nat) : option Q :=
  let e := Battery.bin_edges ys in
  let c i := Battery.count (Battery.in_hist_bin 4 e i) ys in
  Battery.fdiv
    (Battery.fdiv (Some (inject_Z (c ii))) (Some (nth (S ii) e 0 - nth ii e 0))%Q)
    (Some (inject_Z (c 0%nat + (c 1%nat + (c 2%nat + (c 3%nat + 0))))%Z)).

(** The histogram in the words of the specification: four bins over the
    range of the training labels, the first with both its edges, a later
    one open on the left and closed on the right; the normalised density of
    a bin is the number of labels it contains, over its width and over the
    number of all labels. *)
Definition spec_hist (ys : list Q) : list (option Q) :=
  let e := Battery.bin_edges ys in
  (fun ii =>
     Battery.fdiv
       (Battery.fdiv (Some (inject_Z (Battery.count (Battery.sel e ii) ys)))
                     (Some (nth (S ii) e 0 - nth ii e 0))%Q)
       (Some (inject_Z (Z.of_nat (length ys))))) <$> seq 0 Battery.bins.

(** The weight that the specification gives to a label contained in bin
    [ii]: the mean density over the density of that bin. *)
Definition spec_weight (ys : list Q) (ii : nat) : option Q :=
  Battery.fdiv (Battery.np_mean (spec_hist ys)) (nth ii (spec_hist ys) None).

(** The cells of row [i] in the columns of a frame. *)
Definition row_of (data : AutoMPG.frame) (i : nat) : list AutoMPG.fcell :=
  (fun p : AutoMPG.label * list AutoMPG.fcell => default None (p.2 !! i)) <$> data.

End Views.

(** ** Evaluation of the battery model (cnn_life_predict.ipynb) *)

Module Evaluation.
Import Labels.

Local Open Scope R_scope.

(** Float cells over the reals: [None] is [nan] or [inf]. *)
Definition cell_div (a b : R) : option R :=
  if decide (b = 0) then None else Some (a / b).

Definition cell_sum (a : list (option R)) : option R :=
  foldr (fun c acc =>
           match c, acc with Some x, Some s => Some (x + s) | _, _ => None end)
        (Some 0) a.

(** [np.mean] of an array of cells; the mean of no cell is 0/0. *)
Definition np_mean (a : list (option R)) : option R :=
  s ← cell_sum a; cell_div s (INR (length a)).

(** [np.min], [np.max] and [a.max()]: they raise on an empty array,
    which is [None] here. *)
Definition np_min (a : list R) : option R :=
  match a with [] => None | x :: r => Some (foldl Rmin x r) end.

Definition np_max (a : list R) : option R :=
  match a with [] => None | x :: r => Some (foldl Rmax x r) end.

(** The error metrics of one data set, source lines 399-413: the mean
    squared error of the labels, and the mean absolute percent error of the
    cycle lives, relative to each life ([mapre]) and to the largest one
    ([mape]).  [ypred] holds one prediction for each label of [y].  The
    result is [None] when the cell raises, which [y.max()] does on a set
    without a cell. *)
Record metrics := mk_metrics {
  loss : option R;
  mapre : option R;
  mape : option R
}.

Definition times100 (c : option R) : option R := (fun x => 100 * x) <$> c.

Definition error_metrics (logy : bool) (ypred y : list R) : option metrics :=
  let yP := of_label logy <$> ypred in
  let yT := of_label logy <$> y in
  let loss := np_mean (zip_with (fun p t => Some ((p - t) ^ 2)) ypred y) in
  let mapre :=
    times100 (np_mean (zip_with (fun p t => cell_div (Rabs (p - t)) t) yP yT)) in
  ymax ← np_max y;
  let mape :=
    times100 (np_mean (zip_with (fun p t => cell_div (Rabs (p - t)) (of_label logy ymax))
                                yP yT)) in
  Some (mk_metrics loss mapre mape).

(** The predictions are [float32] numbers, and so is [10**ypred]: the
    largest of these numbers is about 3.4e38, and 38 is the largest whole
    exponent whose power of ten is one of them. *)
Definition max_exponent : R := 38.

(** The limits of the parity plot, source lines 346-376: the least and
    the largest of the plotted values, with a margin of a twentieth of
    their distance on both sides.  [np.min] and [np.max] raise on a set
    without a cell. *)
Definition parity_limits (logy : bool) (ypred y : Battery.dset -> list R)
    : option (R * R) :=
  minmaxL ← mapM (fun d =>
      let yP := of_label logy <$> ypred d in
      let yT := of_label logy <$> y d in
      a ← np_min yP; b ← np_min yT; c ← np_max yP; e ← np_max yT;
      Some ([a; b], [c; e])) Battery.dsetL;
  let minL := concat (fst <$> minmaxL) in
  let maxL := concat (snd <$> minmaxL) in
  ymin ← np_min minL;
  ymax ← np_max maxL;
  let yrng := ymax - ymin in
  Some (ymin - 0.05 * yrng, ymax + 0.05 * yrng).

(** The values that the parity plot draws. *)
Definition plotted (logy : bool) (ypred y : Battery.dset -> list R) (v : R) : Prop :=
  exists d, v ∈ of_label logy <$> ypred d \/ v ∈ of_label logy <$> y d.

End Evaluation.

(** ** The features of [get_data] (source lines 62-71, 82-89 and 119) *)

Module Curves.
Import Battery.

Local Open Scope Q_scope.

(** A two-dimensional array: its shape and its rows. *)
Record array2 := mk_array2 {
  nrows : nat;
  ncols : nat;
  rows : list (list Q)
}.

Definition well_shaped (a : array2) : Prop :=
  length (rows a) = nrows a /\ Forall (fun r : list Q => length r = ncols a) (rows a).

Definition same_shape (a b : array2) : bool :=
  (nrows a =? nrows b)%nat && (ncols a =? ncols b)%nat.

(** [a.size]. *)
Definition size (a : array2) : nat := nrows a * ncols a.

(** [VvC[1:, :] - VvC[0, :]]: every cycle after the first, less the
    first; reading row 0 of a data set without a row raises. *)
Definition farr_of (VvC : array2) : option array2 :=
  match rows VvC with
  | [] => None
  | first :: rest =>
      Some (mk_array2 (nrows VvC - 1) (ncols VvC)
                      ((fun r => zip_with Qminus r first) <$> rest))
  end.

(** A cell group of the file, with its curves of discharging voltage
    against capacity, one row for each evaluated cycle. *)
Record group := mk_group { info : cell; VvC : array2 }.

(** [np.stack]: it raises on no array and on arrays of different
    shapes. *)
Definition np_stack (l : list array2) : option (list array2) :=
  match l with
  | [] => None
  | a :: _ => if forallb (same_shape a) l then Some l else None
  end.

(** [Xin], after the loop over the cells and [np.stack]; [None] when
    [get_data] raises on the way. *)
Definition Xin (groups : list group) : option (list array2) :=
  farrs ← mapM (fun g => farr_of (VvC g)) groups;
  np_stack farrs.

(** [nfeat = farr.size], for the [farr] of the last cell; the name is not
    bound when the file has no cell. *)
Definition nfeat (groups : list group) : option nat :=
  farrs ← mapM (fun g => farr_of (VvC g)) groups;
  size <$> last farrs.

(** [X[dset] = Xin[iD[dset], ..., None]]. *)
Definition X (argsort : list Z -> list nat) (groups : list group)
    (rand : nat -> Z) (d : dset) : option (list array2) :=
  a ← Xin groups;
  Some (mask_select a (iD argsort ((fun g => aname (info g)) <$> groups) rand d)).

End Curves.

(* ===================================================================== *)
(** * Part II: properties *)
(* ===================================================================== *)

(** ** Parameter counts *)

Module NetworkFacts.
Import Network.
Local Open Scope Z_scope.

Lemma layers_add (m : Sequential) (l : Dense) : layers (add m l) = layers m ++ [l].
Proof. reflexivity. Qed.

Lemma foldl_add_layers (h : Z) (k : nat) : forall (m : Sequential) (s : nat),
  layers (foldl (fun m _ => add m (mk_dense h relu)) m (seq s k)) =
  layers m ++ replicate k (mk_dense h relu).
Proof.
  induction k as [|k IH]; intros m s; simpl.
  - now rewrite app_nil_r.
  - rewrite IH, layers_add, <- app_assoc. reflexivity.
Qed.

Lemma build_model_layers (k : nat) (n_X h : Z) :
  layers (build_model n_X (Z.of_nat (S k)) h) =
  replicate (S k) (mk_dense h relu) ++ [mk_dense 1 linear].
Proof.
  unfold build_model. rewrite layers_add.
  replace (Z.to_nat (Z.of_nat (S k) - 1)) with k by lia.
  rewrite foldl_add_layers. reflexivity.
Qed.

Lemma foldl_add_input_dim (d : Dense) (l : list nat) : forall m : Sequential,
  input_dim (foldl (fun m _ => add m d) m l) = input_dim m.
Proof.
  induction l as [|x l IH]; intros m; simpl.
  - reflexivity.
  - now rewrite IH.
Qed.

Lemma build_model_input_dim (n_X n_layers h : Z) :
  input_dim (build_model n_X n_layers h) = n_X.
Proof.
  unfold build_model. cbn [add input_dim]. now rewrite foldl_add_input_dim.
Qed.

Lemma foldl_hidden (h : Z) (k : nat) : forall t : Z,
  foldl (fun '(total, n_in) l => (total + dense_params n_in l, units l))
        (t, h) (replicate k (mk_dense h relu)) =
  (t + Z.of_nat k * ((h + 1) * h), h).
Proof.
  induction k as [|k IH]; intros t.
  - simpl. f_equal. lia.
  - change (replicate (S k) (mk_dense h relu))
      with (mk_dense h relu :: replicate k (mk_dense h relu)).
    cbn [foldl]. rewrite IH. unfold dense_params. cbn [units]. f_equal. lia.
Qed.

(** The closed form for [build_model]: a first hidden layer on the inputs,
    [k] further hidden layers, and one output. *)
Lemma count_params_build_model (k : nat) (n_X h : Z) :
  count_params (build_model n_X (Z.of_nat (S k)) h) =
  (n_X + 1) * h + Z.of_nat k * ((h + 1) * h) + (h + 1).
Proof.
  unfold count_params. rewrite build_model_layers, build_model_input_dim.
  change (replicate (S k) (mk_dense h relu))
    with (mk_dense h relu :: replicate k (mk_dense h relu)).
  rewrite foldl_app. cbn [foldl app]. rewrite foldl_hidden.
  unfold dense_params. cbn [units fst]. lia.
Qed.


End NetworkFacts.

(** ** The label transform *)

Module LabelFacts.
Import Labels.
Local Open Scope R_scope.

Lemma ln_10_pos : 0 < ln 10.
Proof. rewrite <- ln_1. apply ln_increasing; lra. Qed.

Lemma pow10_log10 (x : R) : 0 < x -> pow10 (log10 x) = x.
Proof.
  intros Hx. unfold pow10, log10, Rpower.
  replace (ln x / ln 10 * ln 10) with (ln x).
  - now apply exp_ln.
  - field. pose proof ln_10_pos. lra.
Qed.

Lemma log10_pow10 (y : R) : log10 (pow10 y) = y.
Proof.
  unfold pow10, log10, Rpower. rewrite ln_exp. field.
  pose proof ln_10_pos. lra.
Qed.

(** C8. With [logy = True] the label transform and the transform back are
    inverse to each other: 10^(log10 x) = x for every positive cycle life
    [x], and log10 (10^y) = y for every label [y]. *)
Theorem label_roundtrip (x y : R) :
  (0 < x -> of_label true (to_label true x) = x) /\
  to_label true (of_label true y) = y.
Proof.
  split.
  - intros Hx. now apply pow10_log10.
  - apply log10_pow10.
Qed.

Lemma label_roundtrip_witness :
  of_label true (to_label true 1000) = 1000 /\
  to_label true (of_label true 3) = 3.
Proof.
  split.
  - apply (proj1 (label_roundtrip 1000 3)). lra.
  - apply (proj2 (label_roundtrip 1000 3)).
Defined.

End LabelFacts.

(** ** The split of [get_data] *)

Module SplitFacts.
Import Battery.
Local Open Scope Z_scope.

(** *** Arrays *)

Lemma filter_ext_elem {A} (P Q : A -> Prop) `{!forall x, Decision (P x)}
    `{!forall x, Decision (Q x)} (l : list A) :
  (forall x, x ∈ l -> P x <-> Q x) -> filter P l = filter Q l.
Proof.
  induction l as [|a l IH]; intros Hext; [reflexivity|].
  rewrite !filter_cons.
  assert (Ha : P a <-> Q a) by (apply Hext; left).
  rewrite IH by (intros x Hx; apply Hext; now right).
  destruct (decide (P a)), (decide (Q a)); tauto.
Qed.

(** [np.sum] counts the indices at which the mask holds. *)
Lemma np_sum_indices (mask : list bool) :
  np_sum mask = length (filter (member mask) (seq 0 (length mask))).
Proof.
  unfold np_sum. induction mask as [|b mask IH] using rev_ind; [reflexivity|].
  rewrite length_app. simpl length. rewrite Nat.add_1_r, seq_S.
  rewrite !filter_app, !length_app, IH. simpl. f_equal.
  - f_equal. apply filter_ext_elem. intros i Hi.
    apply elem_of_seq in Hi. unfold member. rewrite lookup_app_l by lia. tauto.
  - rewrite !filter_cons, !filter_nil. unfold member.
    assert (Hm : member (mask ++ [b]) (length mask) <-> Is_true b).
    { unfold member.
      rewrite (list_lookup_middle mask [] b (length mask)) by reflexivity.
      destruct b; simpl; split; intros; done. }
    repeat case_decide; tauto || reflexivity.
Qed.

(** No more distinct members than the mask counts. *)
Lemma members_le_np_sum (mask : list bool) (l : list nat) :
  NoDup l -> (forall i, i ∈ l -> member mask i) -> (length l <= np_sum mask)%nat.
Proof.
  intros Hnd Hl. rewrite np_sum_indices.
  apply submseteq_length, NoDup_submseteq; [assumption|].
  intros i Hi. apply list_elem_of_filter. split; [now apply Hl|].
  apply elem_of_seq. specialize (Hl i Hi). apply lookup_lt_Some in Hl. lia.
Qed.

Lemma np_sum_le_length (mask : list bool) : (np_sum mask <= length mask)%nat.
Proof. apply length_filter. Qed.

Lemma index_assign_length {A} (idx : list nat) (v : A) : forall a,
  length (index_assign a idx v) = length a.
Proof.
  unfold index_assign. induction idx as [|i idx IH]; intros a; simpl.
  - reflexivity.
  - now rewrite IH, length_insert.
Qed.

Lemma index_assign_lookup {A} (idx : list nat) (v : A) : forall a j,
  (j < length a)%nat ->
  index_assign a idx v !! j = if decide (j ∈ idx) then Some v else a !! j.
Proof.
  unfold index_assign. induction idx as [|i idx IH]; intros a j Hj; simpl.
  - destruct (decide (j ∈ [])) as [H|]; [inversion H|reflexivity].
  - rewrite IH by now rewrite length_insert.
    destruct (decide (j ∈ idx)) as [Hin|Hnin].
    + destruct (decide (j ∈ i :: idx)) as [|n0]; [reflexivity|].
      exfalso. apply n0. now right.
    + destruct (decide (j = i)) as [->|Hne].
      * rewrite list_lookup_insert_eq by assumption.
        destruct (decide (i ∈ i :: idx)) as [|n0]; [reflexivity|].
        exfalso. apply n0. left.
      * rewrite list_lookup_insert_ne by congruence.
        destruct (decide (j ∈ i :: idx)) as [Hc|]; [|reflexivity].
        apply elem_of_cons in Hc. tauto.
Qed.

(** *** The masks *)

Section Masks.

Variable argsort : list Z -> list nat.
Variable anameL : list string.
Variable rand : nat -> Z.

#[local] Abbreviation ncell := (ncell anameL).
#[local] Abbreviation iD_tst := (iD_tst anameL).
#[local] Abbreviation iD_val := (iD_val argsort anameL rand).
#[local] Abbreviation iD_trn := (iD_trn argsort anameL rand).
#[local] Abbreviation top_nval := (top_nval argsort anameL rand).
#[local] Abbreviation irnd := (irnd anameL rand).
#[local] Abbreviation nval := (nval anameL).
#[local] Abbreviation nrst := (nrst anameL).
#[local] Abbreviation ntst := (ntst anameL).

Lemma iD_tst_length : length iD_tst = ncell.
Proof. unfold Battery.iD_tst, batchV, Battery.ncell. now rewrite !length_fmap. Qed.

Lemma iD_val_length : length iD_val = ncell.
Proof. unfold Battery.iD_val. now rewrite index_assign_length, length_replicate. Qed.

Lemma iD_tst_lookup (i : nat) (name : string) :
  anameL !! i = Some name ->
  iD_tst !! i = Some (batch_code name =? 3).
Proof.
  intros H. unfold Battery.iD_tst, batchV.
  now rewrite !list_lookup_fmap, H.
Qed.

Lemma iD_val_lookup (i : nat) :
  (i < ncell)%nat ->
  iD_val !! i = Some (bool_decide (i ∈ top_nval)).
Proof.
  intros Hi. unfold Battery.iD_val.
  rewrite index_assign_lookup by now rewrite length_replicate.
  rewrite lookup_replicate_2 by assumption.
  now destruct (decide (i ∈ top_nval)) as [H|H];
    [rewrite bool_decide_eq_true_2|rewrite bool_decide_eq_false_2].
Qed.

Lemma iD_trn_lookup (i : nat) (v t : bool) :
  iD_val !! i = Some v -> iD_tst !! i = Some t ->
  iD_trn !! i = Some (negb v && negb t).
Proof.
  intros Hv Ht. unfold Battery.iD_trn, mask_mul, np_invert.
  rewrite lookup_zip_with, !list_lookup_fmap, Hv, Ht. reflexivity.
Qed.

(** Every cell is in a set, and the training set meets neither the
    validation set nor the test set.  This holds of every draw and of
    every [argsort]. *)
Lemma trn_complement (i : nat) :
  (i < ncell)%nat ->
  (member iD_trn i \/ member iD_val i \/ member iD_tst i) /\
  ~ (member iD_trn i /\ member iD_val i) /\
  ~ (member iD_trn i /\ member iD_tst i).
Proof.
  intros Hi. unfold member.
  destruct (lookup_lt_is_Some_2 anameL i Hi) as [name Hname].
  pose proof (iD_tst_lookup i name Hname) as Ht.
  pose proof (iD_val_lookup i Hi) as Hv.
  rewrite (iD_trn_lookup i _ _ Hv Ht), Hv, Ht.
  destruct (bool_decide (i ∈ top_nval)), (batch_code name =? 3); simpl;
    intuition congruence.
Qed.

Lemma irnd_length : length irnd = ncell.
Proof.
  unfold Battery.irnd, mask_assign.
  rewrite length_zip_with, length_fmap, length_seq, iD_tst_length. lia.
Qed.

Lemma irnd_lookup (i : nat) (t : bool) :
  iD_tst !! i = Some t ->
  irnd !! i = Some (if t then 0 else rand i).
Proof.
  intros Ht. pose proof (lookup_lt_Some _ _ _ Ht) as Hi.
  rewrite iD_tst_length in Hi.
  unfold Battery.irnd, mask_assign.
  rewrite lookup_zip_with, list_lookup_fmap, lookup_seq_lt, Ht by assumption.
  reflexivity.
Qed.

Lemma nrst_nonneg : 0 <= nrst.
Proof.
  unfold Battery.nrst, Battery.ntst.
  pose proof (np_sum_le_length iD_tst) as H. rewrite iD_tst_length in H. lia.
Qed.

Lemma int16_range (z : Z) : -32768 <= int16 z <= 32767.
Proof. unfold int16. pose proof (Z.mod_pos_bound (z + 32768) 65536). lia. Qed.

Lemma int16_small (z : Z) : -32768 <= z <= 32767 -> int16 z = z.
Proof. intros H. unfold int16. rewrite Z.mod_small; lia. Qed.

Lemma int16_le (z : Z) : 0 <= z -> int16 z <= z.
Proof.
  intros H. unfold int16.
  pose proof (Z.mod_le (z + 32768) 65536). lia.
Qed.

Lemma nval_le_nrst : nval <= nrst.
Proof.
  pose proof nrst_nonneg as H. unfold Battery.nval, int16_fifth.
  assert (0 <= nrst / 5 <= nrst).
  { split; [apply Z.div_pos; lia|]. apply Z.div_le_upper_bound; lia. }
  pose proof (int16_le (nrst / 5)). lia.
Qed.

Section Sorted.

Hypothesis argsort_ok : argsort_spec argsort.

Lemma argsort_length : length (argsort irnd) = ncell.
Proof.
  destruct (argsort_ok irnd) as [Hp _].
  now rewrite Hp, length_seq, irnd_length.
Qed.

Lemma argsort_elem (i : nat) : i ∈ argsort irnd <-> (i < ncell)%nat.
Proof.
  destruct (argsort_ok irnd) as [Hp _].
  rewrite Hp, elem_of_seq, irnd_length. lia.
Qed.

Lemma argsort_NoDup : NoDup (argsort irnd).
Proof.
  destruct (argsort_ok irnd) as [Hp _]. rewrite Hp. apply NoDup_seq.
Qed.

(** With at least one validation cell asked for, the slice takes the
    last [nval] indices of the sort. *)
Lemma top_nval_drop :
  1 <= nval -> top_nval = drop (ncell - Z.to_nat nval) (argsort irnd).
Proof.
  intros Hn. unfold Battery.top_nval, slice_from.
  pose proof nval_le_nrst. pose proof (int16_range (nrst / 5)) as Hr.
  fold (int16_fifth nrst) in Hr. fold nval in Hr.
  rewrite int16_small by lia. rewrite argsort_length.
  assert (nrst <= Z.of_nat ncell) by (unfold Battery.nrst; lia).
  destruct (Z.ltb_spec (- nval) 0) as [_|]; [|lia].
  f_equal. lia.
Qed.

(** With none asked for, the slice [[-0:]] is the whole sort, and every
    cell gets into the validation set. *)
Lemma top_nval_all : nval = 0 -> top_nval = argsort irnd.
Proof.
  intros Hn. unfold Battery.top_nval, slice_from. rewrite Hn.
  change (int16 (- 0)) with 0. change (0 <? 0) with false. cbv iota.
  rewrite Z.min_l by lia. reflexivity.
Qed.

Lemma iD_val_all (i : nat) : nval = 0 -> (i < ncell)%nat -> member iD_val i.
Proof.
  intros Hn Hi. unfold member. rewrite iD_val_lookup by assumption.
  rewrite top_nval_all by assumption.
  rewrite bool_decide_eq_true_2; [reflexivity|]. now apply argsort_elem.
Qed.

(** The validation cells are drawn from outside the test set, provided
    at least one is asked for and the draws of the cells outside the
    test set are not zero. *)
Lemma val_tst_disjoint (i : nat) :
  1 <= nval ->
  (forall j, (j < ncell)%nat -> ~ member iD_tst j -> 0 < rand j) ->
  ~ (member iD_val i /\ member iD_tst i).
Proof.
  intros Hn Hpos [Hv Ht]. unfold member in Hv.
  pose proof (lookup_lt_Some _ _ _ Hv) as Hi. rewrite iD_val_length in Hi.
  rewrite iD_val_lookup in Hv by assumption.
  assert (Htop : i ∈ top_nval).
  { destruct (decide (i ∈ top_nval)) as [|n0]; [assumption|].
    rewrite bool_decide_eq_false_2 in Hv by assumption. discriminate. }
  rewrite top_nval_drop in Htop by assumption.
  set (k := (ncell - Z.to_nat nval)%nat) in *.
  destruct (argsort_ok irnd) as [_ Hs].
  pose proof argsort_NoDup as Hnd.
  rewrite <- (take_drop k (argsort irnd)) in Hs, Hnd.
  apply NoDup_app in Hnd. destruct Hnd as (Hnd1 & Hnd2 & _).
  assert (Hkey : key irnd i = 0).
  { unfold key. now rewrite (irnd_lookup i true Ht). }
  assert (Hall : forall x, x ∈ i :: take k (argsort irnd) -> member iD_tst x).
  { intros x Hx. apply elem_of_cons in Hx. destruct Hx as [->|Hx]; [assumption|].
    pose proof (StronglySorted_app_1_elem_of _ _ _ _ _ Hs Hx Htop) as Hle.
    unfold key_le in Hle. rewrite Hkey in Hle.
    assert (Hxn : (x < ncell)%nat).
    { apply argsort_elem. rewrite <- (take_drop k (argsort irnd)).
      apply elem_of_app. now left. }
    destruct (decide (member iD_tst x)) as [|Hnt]; [assumption|].
    exfalso. specialize (Hpos x Hxn Hnt).
    assert (Hx' : iD_tst !! x = Some false).
    { destruct (lookup_lt_is_Some_2 iD_tst x) as [[] Hb];
        [now rewrite iD_tst_length| |assumption]. contradiction. }
    unfold key in Hle. rewrite (irnd_lookup x false Hx') in Hle.
    simpl in Hle. lia. }
  assert (Hlen : (length (i :: take k (argsort irnd)) <= ntst)%nat).
  { apply members_le_np_sum; [|exact Hall].
    apply NoDup_cons. split; [|assumption]. intros Hin. now apply (Hnd2 i). }
  simpl in Hlen. rewrite length_take, argsort_length in Hlen.
  pose proof nval_le_nrst. unfold Battery.nrst in *. fold ntst in *. lia.
Qed.

End Sorted.

End Masks.

(** *** The sort used to run the model meets [argsort_spec] *)

#[local] Instance key_le_trans (a : list Z) : Transitive (key_le a).
Proof. intros x y z. unfold key_le. lia. Qed.

#[local] Instance key_le_total (a : list Z) : Total (key_le a).
Proof. intros x y. unfold key_le. lia. Qed.

Lemma np_argsort_spec : argsort_spec np_argsort.
Proof.
  intros a. unfold np_argsort. split.
  - apply merge_sort_Permutation.
  - apply StronglySorted_merge_sort; apply _.
Qed.

(** *** Batch labels *)

Lemma batch_code_3 (name : string) :
  batch_code name = 3 <->
  contains "Batch3" name = true /\
  contains "Batch1" name = false /\ contains "Batch2" name = false.
Proof.
  unfold batch_code.
  destruct (contains "Batch1" name), (contains "Batch2" name),
    (contains "Batch3" name); intuition (try discriminate; try lia).
Qed.

Lemma batch_code_0 (name : string) :
  contains "Batch1" name = false -> contains "Batch2" name = false ->
  contains "Batch3" name = false -> batch_code name = 0.
Proof. unfold batch_code. now intros -> -> ->. Qed.

(** *** The claims on the split *)

(** C1 (the code departs from it). With the two cells [Batch1_c0] and
    [Batch3_c0] a fifth of the one cell left for training and validation
    is zero cells, the slice [[-0:]] is the whole array, and the cell of
    batch 3 is in the validation set and in the test set at once, whatever
    the draws. *)
Theorem small_split_overlap (argsort : list Z -> list nat) (rand : nat -> Z) :
  argsort_spec argsort ->
  let anameL := ["Batch1_c0"; "Batch3_c0"]%string in
  nval anameL = 0 /\
  member (iD argsort anameL rand val) 1 /\ member (iD argsort anameL rand tst) 1.
Proof.
  intros Hspec anameL. split; [reflexivity|]. split.
  - apply iD_val_all; [assumption|reflexivity|]. unfold ncell. simpl. lia.
  - reflexivity.
Qed.

Lemma small_split_overlap_witness :
  let anameL := ["Batch1_c0"; "Batch3_c0"]%string in
  nval anameL = 0 /\
  member (iD np_argsort anameL (fun _ => 1) val) 1 /\
  member (iD np_argsort anameL (fun _ => 1) tst) 1.
Proof. exact (small_split_overlap np_argsort (fun _ => 1) np_argsort_spec). Defined.

(** C5, as amended. A cell is in the test set exactly when its batch
    label is 3, that is when its name contains [Batch3] and neither
    [Batch1] nor [Batch2]; the test mask depends neither on the draws nor
    on the sort; a test cell is never in the training set; and it is not in
    the validation set either when at least one validation cell is asked
    for and the draws of the cells outside the test set are not zero. *)
Theorem test_set_by_batch (argsort argsort' : list Z -> list nat)
    (anameL : list string) (rand rand' : nat -> Z) (i : nat) (name : string) :
  anameL !! i = Some name ->
  (member (iD argsort anameL rand tst) i <-> batch_code name = 3) /\
  (batch_code name = 3 <->
     contains "Batch3" name = true /\
     contains "Batch1" name = false /\ contains "Batch2" name = false) /\
  iD argsort anameL rand tst = iD argsort' anameL rand' tst /\
  (member (iD argsort anameL rand tst) i -> ~ member (iD argsort anameL rand trn) i) /\
  (argsort_spec argsort ->
   1 <= nval anameL ->
   (forall j, (j < ncell anameL)%nat ->
              ~ member (iD argsort anameL rand tst) j -> 0 < rand j) ->
   member (iD argsort anameL rand tst) i -> ~ member (iD argsort anameL rand val) i).
Proof.
  intros Hname. simpl iD.
  assert (Hi : (i < ncell anameL)%nat) by (eapply lookup_lt_Some; eassumption).
  repeat split.
  - unfold member. rewrite (iD_tst_lookup anameL i name Hname).
    intros [= H]. now apply Z.eqb_eq.
  - intros H. unfold member. rewrite (iD_tst_lookup anameL i name Hname).
    f_equal. now apply Z.eqb_eq.
  - now apply batch_code_3.
  - now apply batch_code_3.
  - now apply batch_code_3.
  - intros (H3 & H1 & H2). now apply batch_code_3.
  - intros Ht Htrn.
    destruct (trn_complement argsort anameL rand i Hi) as (_ & _ & H). tauto.
  - intros Hspec Hn Hpos Ht Hv.
    apply (val_tst_disjoint argsort anameL rand Hspec i Hn Hpos). tauto.
Qed.

Lemma test_set_by_batch_witness :
  let anameL :=
    ["Batch1_c0"; "Batch1_c1"; "Batch2_c0"; "Batch2_c1"; "Batch2_c2"; "Batch3_c0"]%string in
  let rand := fun j => Z.of_nat (7 - j) in
  member (iD np_argsort anameL rand tst) 5 /\
  ~ member (iD np_argsort anameL rand trn) 5 /\
  ~ member (iD np_argsort anameL rand val) 5.
Proof.
  intros anameL rand.
  pose proof (test_set_by_batch np_argsort np_argsort anameL rand rand 5 "Batch3_c0"
                eq_refl) as (H1 & _ & _ & H4 & H5).
  assert (Ht : member (iD np_argsort anameL rand tst) 5) by (apply H1; reflexivity).
  split; [exact Ht|]. split; [exact (H4 Ht)|].
  apply H5; [exact np_argsort_spec|vm_compute; discriminate| |exact Ht].
  intros j Hj Hnt. unfold rand. unfold ncell in Hj. simpl in Hj. lia.
Defined.

(** C5 as stated fails: a name may contain [Batch3] and an earlier label
    too, and the earlier label wins. *)
Lemma test_set_by_batch_counterexample :
  contains "Batch3" "Batch1_Batch3_c0" = true /\
  ~ member (iD np_argsort ["Batch1_Batch3_c0"]%string (fun _ => 1) tst) 0.
Proof. split; [reflexivity|]. vm_compute. discriminate. Qed.

(** C10. A cell whose name contains none of [Batch1], [Batch2] and
    [Batch3] has batch label 0, is not in the test set, and is in the
    training set or in the validation set. *)
Theorem unlabelled_cell_not_tested (argsort : list Z -> list nat)
    (anameL : list string) (rand : nat -> Z) (i : nat) (name : string) :
  anameL !! i = Some name ->
  contains "Batch1" name = false ->
  contains "Batch2" name = false ->
  contains "Batch3" name = false ->
  batchV anameL !! i = Some 0 /\
  ~ member (iD argsort anameL rand tst) i /\
  (member (iD argsort anameL rand trn) i \/ member (iD argsort anameL rand val) i).
Proof.
  intros Hname H1 H2 H3. pose proof (batch_code_0 name H1 H2 H3) as H0.
  assert (Hi : (i < ncell anameL)%nat) by (eapply lookup_lt_Some; eassumption).
  assert (Ht : ~ member (iD_tst anameL) i).
  { unfold member. rewrite (iD_tst_lookup anameL i name Hname), H0. discriminate. }
  split; [|split].
  - unfold batchV. now rewrite list_lookup_fmap, Hname, <- H0.
  - exact Ht.
  - destruct (trn_complement argsort anameL rand i Hi) as (H & _). simpl iD. tauto.
Qed.

Lemma unlabelled_cell_not_tested_witness :
  let anameL := ["cell_a"; "Batch3_c0"; "Batch2_c0"]%string in
  batchV anameL !! 0%nat = Some 0 /\
  ~ member (iD np_argsort anameL (fun _ => 1) tst) 0 /\
  (member (iD np_argsort anameL (fun _ => 1) trn) 0 \/
   member (iD np_argsort anameL (fun _ => 1) val) 0).
Proof.
  exact (unlabelled_cell_not_tested np_argsort ["cell_a"; "Batch3_c0"; "Batch2_c0"]%string
           (fun _ => 1) 0 "cell_a" eq_refl eq_refl eq_refl eq_refl).
Defined.

End SplitFacts.


(** ** The sample weights of [get_data] *)

Module WeightFacts.
Import Battery.
Local Open Scope Q_scope.

Lemma qmin_le (x y : Q) : qmin x y <= x /\ qmin x y <= y.
Proof.
  unfold qmin. destruct (Qle_bool x y) eqn:E.
  - apply Qle_bool_iff in E. lra.
  - assert (~ x <= y) by (rewrite <- Qle_bool_iff; congruence). lra.
Qed.

Lemma qmax_ge (x y : Q) : x <= qmax x y /\ y <= qmax x y.
Proof.
  unfold qmax. destruct (Qle_bool x y) eqn:E.
  - apply Qle_bool_iff in E. lra.
  - assert (~ x <= y) by (rewrite <- Qle_bool_iff; congruence). lra.
Qed.

Lemma foldl_qmin_le (r : list Q) : forall x,
  foldl qmin x r <= x /\ forall y, y ∈ r -> foldl qmin x r <= y.
Proof.
  induction r as [|a r IH]; intros x; simpl.
  - split; [lra|]. intros y Hy. inversion Hy.
  - destruct (IH (qmin x a)) as [H1 H2]. pose proof (qmin_le x a).
    split; [lra|]. intros y Hy. apply elem_of_cons in Hy.
    destruct Hy as [->|Hy]; [lra|now apply H2].
Qed.

Lemma foldl_qmax_ge (r : list Q) : forall x,
  x <= foldl qmax x r /\ forall y, y ∈ r -> y <= foldl qmax x r.
Proof.
  induction r as [|a r IH]; intros x; simpl.
  - split; [lra|]. intros y Hy. inversion Hy.
  - destruct (IH (qmax x a)) as [H1 H2]. pose proof (qmax_ge x a).
    split; [lra|]. intros y Hy. apply elem_of_cons in Hy.
    destruct Hy as [->|Hy]; [lra|now apply H2].
Qed.

(** The range of the histogram is not empty and holds every label. *)
Lemma hist_range_spec (a : list Q) :
  (hist_range a).1 < (hist_range a).2 /\
  forall y, y ∈ a -> (hist_range a).1 <= y <= (hist_range a).2.
Proof.
  unfold hist_range. destruct a as [|x r].
  - simpl. split; [lra|]. intros y Hy. inversion Hy.
  - destruct (foldl_qmin_le r x) as [Hm1 Hm2].
    destruct (foldl_qmax_ge r x) as [HM1 HM2].
    assert (Hin : forall y, y ∈ x :: r -> foldl qmin x r <= y <= foldl qmax x r).
    { intros y Hy. apply elem_of_cons in Hy. destruct Hy as [->|Hy].
      - lra.
      - specialize (Hm2 y Hy). specialize (HM2 y Hy). lra. }
    destruct (Qeq_bool (foldl qmin x r) (foldl qmax x r)) eqn:E; simpl.
    + apply Qeq_bool_iff in E. split; [lra|].
      intros y Hy. specialize (Hin y Hy). lra.
    + assert (~ foldl qmin x r == foldl qmax x r)
        by (rewrite <- Qeq_bool_iff; congruence).
      split; [lra|exact Hin].
Qed.

Lemma bin_edges_linspace (a : list Q) :
  bin_edges a = linspace (hist_range a).1 (hist_range a).2 bins.
Proof. unfold bin_edges, np_histogram. now destruct (hist_range a). Qed.

(** The five edges of four bins are equally spaced. *)
Lemma linspace_4 (first last : Q) :
  let e := linspace first last 4 in
  let step := (last - first) / 4 in
  nth 0 e 0 == first /\ nth 1 e 0 == first + step /\
  nth 2 e 0 == first + 2 * step /\ nth 3 e 0 == first + 3 * step /\
  nth 4 e 0 == last /\ 4 * step == last - first.
Proof.
  unfold linspace. simpl.
  change (inject_Z (Z.of_nat 4)) with 4. change (inject_Z (Z.of_nat 0)) with 0.
  change (inject_Z (Z.of_nat 1)) with 1. change (inject_Z (Z.of_nat 2)) with 2.
  change (inject_Z (Z.of_nat 3)) with 3.
  repeat split; field.
Qed.

Lemma sel_first (e : list Q) (x : Q) :
  sel e 0 x = true <-> nth 0 e 0 <= x /\ x <= nth 1 e 0.
Proof.
  unfold sel. simpl. rewrite andb_true_iff, !Qle_bool_iff. tauto.
Qed.

Lemma sel_later (e : list Q) (ii : nat) (x : Q) :
  sel e (S ii) x = true <-> nth (S ii) e 0 < x /\ x <= nth (S (S ii)) e 0.
Proof.
  unfold sel. simpl Nat.eqb. cbv iota.
  rewrite andb_true_iff, negb_true_iff, Qle_bool_iff.
  split; intros [H1 H2]; split; try assumption.
  - apply Qnot_le_lt. rewrite <- Qle_bool_iff. congruence.
  - destruct (Qle_bool x (nth (S ii) e 0)) eqn:E; [|reflexivity].
    apply Qle_bool_iff in E. lra.
Qed.

(** The selections of the weight loop split the range of the histogram:
    a label of the range is selected for exactly one bin. *)
Lemma sel_partition (first last x : Q) :
  first < last -> first <= x <= last ->
  exists ii, (ii < 4)%nat /\ sel (linspace first last 4) ii x = true /\
    forall k, (k < 4)%nat -> sel (linspace first last 4) k x = true -> k = ii.
Proof.
  intros Hlt Hx.
  destruct (linspace_4 first last) as (H0 & H1 & H2 & H3 & H4 & Hs).
  set (e := linspace first last 4) in *. set (step := (last - first) / 4) in *.
  assert (Hu : forall ii, (ii < 4)%nat -> sel e ii x = true ->
             forall k, (k < 4)%nat -> sel e k x = true -> k = ii).
  { intros ii Hii Hsel k Hk Hselk.
    destruct ii as [|[|[|[|ii]]]]; [| | | |lia];
      destruct k as [|[|[|[|k]]]]; try lia; try reflexivity; exfalso;
      first [apply sel_first in Hsel | apply sel_later in Hsel];
      first [apply sel_first in Hselk | apply sel_later in Hselk]; lra. }
  destruct (Qlt_le_dec (nth 1 e 0) x) as [G1|G1].
  - destruct (Qlt_le_dec (nth 2 e 0) x) as [G2|G2].
    + destruct (Qlt_le_dec (nth 3 e 0) x) as [G3|G3].
      * assert (Hsel : sel e 3 x = true) by (apply sel_later; lra).
        exists 3%nat. split; [lia|]. split; [exact Hsel|]. apply Hu; [lia|exact Hsel].
      * assert (Hsel : sel e 2 x = true) by (apply sel_later; lra).
        exists 2%nat. split; [lia|]. split; [exact Hsel|]. apply Hu; [lia|exact Hsel].
    + assert (Hsel : sel e 1 x = true) by (apply sel_later; lra).
      exists 1%nat. split; [lia|]. split; [exact Hsel|]. apply Hu; [lia|exact Hsel].
  - assert (Hsel : sel e 0 x = true) by (apply sel_first; lra).
    exists 0%nat. split; [lia|]. split; [exact Hsel|]. apply Hu; [lia|exact Hsel].
Qed.

Lemma fdiv_None_r (m : option Q) : fdiv m None = None.
Proof. now destruct m. Qed.

Lemma invhist_nth (a : list Q) (ii : nat) :
  nth ii (invhist a) None = fdiv (np_mean (hist a)) (nth ii (hist a) None).
Proof.
  unfold invhist. rewrite <- (fdiv_None_r (np_mean (hist a))) at 1.
  apply (map_nth (fdiv (np_mean (hist a)))).
Qed.

(** What the loop leaves at position [j]: the entry of [invhist] for the
    last bin that selects the label, and the initial 1 when none does. *)
Lemma weights_lookup (a : list Q) (j : nat) (x : Q) :
  a !! j = Some x ->
  weights a !! j =
  Some (if sel (bin_edges a) 3 x then nth 3 (invhist a) None
        else if sel (bin_edges a) 2 x then nth 2 (invhist a) None
        else if sel (bin_edges a) 1 x then nth 1 (invhist a) None
        else if sel (bin_edges a) 0 x then nth 0 (invhist a) None
        else Some 1).
Proof.
  intros Hx. pose proof (lookup_lt_Some _ _ _ Hx) as Hj.
  unfold weights, bins. simpl foldl.
  rewrite !lookup_zip_with, lookup_replicate_2, Hx by assumption. simpl.
  reflexivity.
Qed.

(** The bins of [np.histogram] are closed on the left, those of the loop
    on the right: a label on an inner edge is counted in one bin and
    weighted by the next one down, here an empty one. *)
Example weights_inner_edge :
  hist [0; 2; 4; 1 # 3] = [Some (32 # 64); Some (0 # 64); Some (16 # 64); Some (4 # 16)] /\
  bin_edges [0; 2; 4; 1 # 3] = [0 # 4; 4 # 4; 8 # 4; 12 # 4; 4] /\
  weights [0; 2; 4; 1 # 3] !! 1%nat = Some None.
Proof. repeat split; vm_compute; reflexivity. Qed.

End WeightFacts.

(** ** The data loaders *)

Module LoaderFacts.
Import Loader.

Section Loaders.

Context {content : Type}.
Variable remote : string -> option content.

#[local] Abbreviation path := (cache_dir ++ "auto-mpg.data")%string.

Lemma get_data_file_ok (w : world content) (c : content) :
  remote remote_url = Some c ->
  get_data_file remote w =
  (Ok c, mk_world (<[fname := c]> (disk w)) (requests w ++ [remote_url])).
Proof.
  intros H. unfold get_data_file, mbind, io_bind, bind, urlretrieve, open_file.
  rewrite H. simpl. now rewrite lookup_insert_eq.
Qed.

Lemma get_data_file_fail (w : world content) :
  remote remote_url = None ->
  get_data_file remote w =
  (Raise URLError, mk_world (disk w) (requests w ++ [remote_url])).
Proof.
  intros H. unfold get_data_file, mbind, io_bind, bind, urlretrieve.
  now rewrite H.
Qed.

Lemma drop_length_app {A} (l k : list A) : drop (length l) (l ++ k) = k.
Proof. now rewrite drop_app_length. Qed.

(** Every run of the head of [get_data] sends one request, whether the
    file is on the disk or not and whether the fetch succeeds or not. *)
Lemma get_data_file_sent (w : world content) :
  sent (get_data_file remote) w = [remote_url].
Proof.
  unfold sent. destruct (remote remote_url) as [c|] eqn:E.
  - rewrite (get_data_file_ok w c E). simpl. apply drop_length_app.
  - rewrite (get_data_file_fail w E). simpl. apply drop_length_app.
Qed.

Lemma auto_mpg_file_cached (w : world content) (c : content) :
  disk w !! path = Some c -> auto_mpg_file remote w = (Ok c, w).
Proof.
  intros H. unfold auto_mpg_file, mbind, io_bind, bind, get_file, open_file.
  now rewrite !H.
Qed.

Lemma auto_mpg_file_first (w : world content) (c : content) :
  disk w !! path = None -> remote auto_mpg_url = Some c ->
  auto_mpg_file remote w =
  (Ok c, mk_world (<[path := c]> (disk w)) (requests w ++ [auto_mpg_url])).
Proof.
  intros Hd Hr.
  unfold auto_mpg_file, mbind, io_bind, bind, get_file, urlretrieve, open_file,
    mret, io_ret, ret.
  rewrite Hd, Hr. simpl. now rewrite lookup_insert_eq.
Qed.

Lemma auto_mpg_file_fail (w : world content) :
  disk w !! path = None -> remote auto_mpg_url = None ->
  auto_mpg_file remote w =
  (Raise URLError, mk_world (disk w) (requests w ++ [auto_mpg_url])).
Proof.
  intros Hd Hr.
  unfold auto_mpg_file, mbind, io_bind, bind, get_file, urlretrieve.
  now rewrite Hd, Hr.
Qed.

Lemma auto_mpg_file_reuses : reuses_cache (auto_mpg_file remote).
Proof.
  intros w a w' H.
  assert (Hc : exists c, disk w' !! path = Some c).
  { destruct (disk w !! path) as [c|] eqn:Hd.
    - rewrite (auto_mpg_file_cached w c Hd) in H. inversion H; subst. eauto.
    - destruct (remote auto_mpg_url) as [c|] eqn:Hr.
      + rewrite (auto_mpg_file_first w c Hd Hr) in H. inversion H; subst.
        exists a. simpl. apply lookup_insert_eq.
      + rewrite (auto_mpg_file_fail w Hd Hr) in H. discriminate. }
  destruct Hc as [c Hc]. unfold sent.
  rewrite (auto_mpg_file_cached w' c Hc). simpl. apply drop_all.
Qed.

(** C7, as amended. The loader of the Keras exercise fetches the file on
    first use, keeps it in the cache and reads it from there afterwards
    without a request; [get_data] sends its request on every call and
    writes the answer over the local file.  In both, a failed fetch is
    raised after that one request, and the disk is left as it was. *)
Theorem loaders_fetch (w : world content) :
  (forall c, disk w !! path = Some c -> auto_mpg_file remote w = (Ok c, w)) /\
  (forall c, disk w !! path = None -> remote auto_mpg_url = Some c ->
     auto_mpg_file remote w =
     (Ok c, mk_world (<[path := c]> (disk w)) (requests w ++ [auto_mpg_url]))) /\
  (disk w !! path = None -> remote auto_mpg_url = None ->
     auto_mpg_file remote w =
     (Raise URLError, mk_world (disk w) (requests w ++ [auto_mpg_url]))) /\
  reuses_cache (auto_mpg_file remote) /\
  (forall c, remote remote_url = Some c ->
     get_data_file remote w =
     (Ok c, mk_world (<[fname := c]> (disk w)) (requests w ++ [remote_url]))) /\
  (remote remote_url = None ->
     get_data_file remote w =
     (Raise URLError, mk_world (disk w) (requests w ++ [remote_url]))) /\
  sent (get_data_file remote) w = [remote_url].
Proof.
  repeat split.
  - intros c. apply auto_mpg_file_cached.
  - intros c. apply auto_mpg_file_first.
  - apply auto_mpg_file_fail.
  - apply auto_mpg_file_reuses.
  - intros c. apply get_data_file_ok.
  - apply get_data_file_fail.
  - apply get_data_file_sent.
Qed.

End Loaders.

Lemma loaders_fetch_witness :
  let w := mk_world (∅ : gmap string unit) [] in
  let remote := fun _ : string => Some tt in
  get_data_file remote w = (Ok tt, mk_world (<[fname := tt]> ∅) [remote_url]) /\
  auto_mpg_file remote w =
    (Ok tt, mk_world (<[(cache_dir ++ "auto-mpg.data")%string := tt]> ∅) [auto_mpg_url]) /\
  auto_mpg_file remote (auto_mpg_file remote w).2 = (Ok tt, (auto_mpg_file remote w).2).
Proof.
  intros w remote.
  destruct (loaders_fetch remote w) as (_ & H2 & _ & _ & H5 & _).
  split; [exact (H5 tt eq_refl)|].
  split; [exact (H2 tt eq_refl eq_refl)|].
  destruct (loaders_fetch remote (auto_mpg_file remote w).2) as (H1 & _).
  exact (H1 tt eq_refl).
Defined.

(** C7 as stated fails for [get_data]: with the file fetched and on the
    disk, the next call sends its request again. *)
Lemma get_data_refetches :
  ~ reuses_cache (get_data_file (fun _ : string => Some tt)).
Proof.
  intros H.
  specialize (H (mk_world ∅ []) tt
                (mk_world (<[fname := tt]> ∅) [remote_url]) eq_refl).
  rewrite get_data_file_sent in H. discriminate.
Qed.

End LoaderFacts.

(** ** The Auto MPG table *)

Module AutoMPGFacts.
Import AutoMPG.
Local Open Scope R_scope.

(** *** Sums *)

Lemma rsum_cons (x : R) (xs : list R) : rsum (x :: xs) = x + rsum xs.
Proof. reflexivity. Qed.

Lemma rsum_sub (m : R) (xs : list R) :
  rsum ((fun x => x - m) <$> xs) = rsum xs - INR (length xs) * m.
Proof.
  induction xs as [|x xs IH].
  - simpl. lra.
  - change (length (x :: xs)) with (S (length xs)).
    rewrite S_INR, fmap_cons, !rsum_cons, IH. lra.
Qed.

Lemma rsum_div (s : R) (xs : list R) :
  rsum ((fun x => x / s) <$> xs) = rsum xs / s.
Proof.
  induction xs as [|x xs IH].
  - simpl. unfold Rdiv. lra.
  - rewrite fmap_cons, !rsum_cons, IH. unfold Rdiv. lra.
Qed.

Lemma rsum_sq_nonneg (m : R) (xs : list R) :
  0 <= rsum ((fun x => (x - m) ^ 2) <$> xs).
Proof.
  induction xs as [|x xs IH]; [simpl; lra|].
  rewrite fmap_cons, rsum_cons. pose proof (pow2_ge_0 (x - m)). lra.
Qed.

Lemma rsum_sq_pos (m x : R) (xs : list R) :
  x ∈ xs -> x <> m -> 0 < rsum ((fun x => (x - m) ^ 2) <$> xs).
Proof.
  intros Hin Hne. induction xs as [|a xs IH]; [inversion Hin|].
  pose proof (rsum_sq_nonneg m xs) as Hn. rewrite fmap_cons, rsum_cons.
  apply elem_of_cons in Hin. destruct Hin as [<-|Hin].
  - assert (0 < (x - m) ^ 2).
    { rewrite <- Rsqr_pow2. apply Rsqr_pos_lt. lra. }
    lra.
  - specialize (IH Hin). pose proof (pow2_ge_0 (a - m)). lra.
Qed.

Lemma rsum_sq_zero (m : R) (xs : list R) :
  rsum ((fun x => (x - m) ^ 2) <$> xs) = 0 -> forall x, x ∈ xs -> x = m.
Proof.
  intros H x Hin. destruct (decide (x = m)) as [|Hne]; [assumption|].
  pose proof (rsum_sq_pos m x xs Hin Hne). lra.
Qed.

(** Dividing the deviations by [s] divides their squares by [s^2]. *)
Lemma rsum_sq_scaled (m s : R) (xs : list R) :
  s <> 0 ->
  rsum ((fun z => (z - 0) ^ 2) <$> ((fun x => (x - m) / s) <$> xs)) =
  rsum ((fun x => (x - m) ^ 2) <$> xs) / (s * s).
Proof.
  intros Hs. induction xs as [|x xs IH].
  - simpl. unfold Rdiv. lra.
  - rewrite !fmap_cons, !rsum_cons, IH. field. assumption.
Qed.

Lemma rsum_const (x : R) (xs : list R) :
  Forall (fun y => y = x) xs -> rsum xs = INR (length xs) * x.
Proof.
  induction 1 as [|y xs Hy _ IH].
  - simpl. lra.
  - change (length (y :: xs)) with (S (length xs)).
    rewrite S_INR, rsum_cons, IH, Hy. lra.
Qed.

Lemma rsum_sq_const (m : R) (xs : list R) :
  Forall (fun y => y = m) xs -> rsum ((fun x => (x - m) ^ 2) <$> xs) = 0.
Proof.
  induction 1 as [|y xs Hy _ IH]; [reflexivity|].
  rewrite fmap_cons, rsum_cons, IH, Hy. ring.
Qed.

(** *** Statistics of a column *)

Lemma numbers_Some (xs : list R) : numbers (Some <$> xs) = xs.
Proof.
  unfold numbers. induction xs as [|x xs IH]; [reflexivity|].
  simpl. f_equal. exact IH.
Qed.

Lemma elem_of_numbers (c : list fcell) (x : R) : x ∈ numbers c <-> Some x ∈ c.
Proof.
  unfold numbers. rewrite list_elem_of_omap. split.
  - intros (o & Ho & ->). exact Ho.
  - intros H. now exists (Some x).
Qed.

Lemma varies_numbers (c : list fcell) :
  varies c <-> exists a b, a ∈ numbers c /\ b ∈ numbers c /\ a <> b.
Proof.
  unfold varies. split; intros (a & b & Ha & Hb & Hne); exists a, b;
    rewrite ?elem_of_numbers in *; auto.
Qed.

Lemma mean_numbers (c : list fcell) :
  numbers c <> [] ->
  mean c = Some (rsum (numbers c) / INR (length (numbers c))).
Proof. unfold mean. now destruct (numbers c). Qed.

(** Two different numbers take two rows. *)
Lemma varies_length (c : list fcell) : varies c -> (2 <= length (numbers c))%nat.
Proof.
  rewrite varies_numbers. intros (a & b & Ha & Hb & Hne).
  destruct (numbers c) as [|x [|y l]]; simpl; [inversion Ha| |lia].
  apply list_elem_of_singleton in Ha, Hb. congruence.
Qed.

(** The sample standard deviation is a number other than zero exactly
    when the column has two different numbers. *)
Lemma std_nonzero_iff (c : list fcell) :
  (exists s, std c = Some s /\ s <> 0) <-> varies c.
Proof.
  split.
  - intros (s & Hs & Hne). unfold std in Hs.
    destruct (mean c) as [m|] eqn:Hm; [|discriminate].
    destruct (decide (length (numbers c) <= 1)%nat) as [|Hlen]; [discriminate|].
    apply (inj Some) in Hs. subst s.
    assert (Hxs : numbers c <> []) by (destruct (numbers c); [simpl in Hlen; lia|discriminate]).
    rewrite (mean_numbers c Hxs) in Hm. injection Hm as Hm.
    apply varies_numbers.
    destruct (decide (Forall (fun y => y = m) (numbers c))) as [Hall|Hex].
    { exfalso. apply Hne. rewrite (rsum_sq_const m _ Hall).
      unfold Rdiv. rewrite Rmult_0_l. apply sqrt_0. }
    apply not_Forall_Exists in Hex; [|intros y; apply _].
    apply Exists_exists in Hex. destruct Hex as (x & Hx & Hxm).
    destruct (decide (Forall (fun y => y = x) (numbers c))) as [Hall|Hex].
    { exfalso. apply Hxm. rewrite <- Hm, (rsum_const x _ Hall). field.
      apply not_0_INR. lia. }
    apply not_Forall_Exists in Hex; [|intros y; apply _].
    apply Exists_exists in Hex. destruct Hex as (b & Hb & Hbx).
    exists x, b. auto.
  - intros Hv. pose proof (varies_length c Hv) as Hlen.
    apply varies_numbers in Hv. destruct Hv as (a & b & Ha & Hb & Hne).
    assert (Hxs : numbers c <> []) by (destruct (numbers c); [inversion Ha|discriminate]).
    unfold std. rewrite (mean_numbers c Hxs).
    set (m := rsum (numbers c) / INR (length (numbers c))).
    destruct (decide (length (numbers c) <= 1)%nat) as [|_]; [lia|].
    eexists. split; [reflexivity|].
    assert (Hpos : 0 < rsum ((fun x => (x - m) ^ 2) <$> numbers c)).
    { destruct (decide (a = m)) as [Ham|Ham].
      - apply (rsum_sq_pos m b); [assumption|congruence].
      - now apply (rsum_sq_pos m a). }
    assert (Hn : 0 < INR (length (numbers c) - 1)) by (apply lt_0_INR; lia).
    apply Rgt_not_eq, sqrt_lt_R0, Rdiv_lt_0_compat; assumption.
Qed.

(** *** The normalization of a column *)

Lemma normalize_lookup (c : list fcell) (i : nat) (x : fcell) :
  c !! i = Some x ->
  normalize c !! i = Some (fdiv (fsub x (mean c)) (std c)).
Proof. intros H. unfold normalize. now rewrite list_lookup_fmap, H. Qed.

(** On a column that varies every number is shifted and scaled. *)
Lemma normalize_varies (c : list fcell) :
  varies c ->
  exists m s, mean c = Some m /\ std c = Some s /\ s <> 0 /\
    normalize c = (fun x : option R => (fun v => (v - m) / s) <$> x) <$> c.
Proof.
  intros Hv. pose proof (varies_length c Hv) as Hlen.
  destruct (proj2 (std_nonzero_iff c) Hv) as (s & Hs & Hne).
  assert (Hxs : numbers c <> []) by (destruct (numbers c); [simpl in Hlen; lia|discriminate]).
  eexists _, s. split; [apply (mean_numbers c Hxs)|]. split; [exact Hs|].
  split; [exact Hne|]. unfold normalize. rewrite Hs, (mean_numbers c Hxs).
  apply list_fmap_ext. intros i [x|] _; simpl; [|reflexivity].
  now destruct (decide (s = 0)).
Qed.

(** On one that does not, no number comes out. *)
Lemma normalize_constant (c : list fcell) (i : nat) (x : fcell) :
  ~ varies c -> c !! i = Some x -> normalize c !! i = Some None.
Proof.
  intros Hv Hx. rewrite (normalize_lookup c i x Hx). f_equal.
  destruct (std c) as [s|] eqn:Hs.
  - destruct (decide (s = 0)) as [->|Hne].
    + unfold fdiv. destruct (fsub x (mean c)); [|reflexivity].
      now destruct (decide (0 = 0)).
    + exfalso. apply Hv, std_nonzero_iff. eauto.
  - unfold fdiv. now destruct (fsub x (mean c)).
Qed.

Lemma all_numbers (c : list fcell) :
  Forall is_Some c -> exists xs, c = Some <$> xs.
Proof.
  induction 1 as [|o c [x ->] _ [xs ->]].
  - now exists [].
  - now exists (x :: xs).
Qed.

(** A column of numbers that varies has, once normalized, mean 0 and
    sample standard deviation 1, and all its cells are numbers. *)
Lemma standardized (xs : list R) :
  varies (Some <$> xs) ->
  mean (normalize (Some <$> xs)) = Some 0 /\
  std (normalize (Some <$> xs)) = Some 1 /\
  Forall is_Some (normalize (Some <$> xs)).
Proof.
  intros Hv. pose proof (varies_length _ Hv) as Hlen.
  destruct (normalize_varies _ Hv) as (m & s & Hm & Hs & Hne & ->).
  rewrite numbers_Some in Hlen.
  assert (Hxs : numbers (Some <$> xs) <> [])
    by (rewrite numbers_Some; destruct xs; [simpl in Hlen; lia|discriminate]).
  rewrite (mean_numbers _ Hxs), numbers_Some in Hm. apply (inj Some) in Hm.
  unfold std in Hs. rewrite (mean_numbers _ Hxs), numbers_Some in Hs.
  rewrite Hm in Hs.
  destruct (decide (length xs <= 1)%nat) as [|_]; [lia|].
  apply (inj Some) in Hs.
  set (ssq := rsum ((fun x => (x - m) ^ 2) <$> xs)) in *.
  set (k := INR (length xs - 1)) in *.
  assert (Hn : 0 < INR (length xs)) by (apply lt_0_INR; lia).
  assert (Hk : 0 < k) by (apply lt_0_INR; lia).
  assert (Hssq : 0 <= ssq) by apply rsum_sq_nonneg.
  assert (Hss : s * s = ssq / k).
  { rewrite <- Hs. apply sqrt_sqrt. apply Rmult_le_pos; [assumption|].
    apply Rlt_le, Rinv_0_lt_compat, Hk. }
  assert (Hssq0 : ssq <> 0).
  { intros H0. apply Hne. rewrite <- Hs, H0. unfold Rdiv.
    rewrite Rmult_0_l. apply sqrt_0. }
  rewrite <- list_fmap_compose.
  change ((fun x : option R => (fun v => (v - m) / s) <$> x) ∘ Some)
    with (Some ∘ (fun v : R => (v - m) / s)).
  rewrite list_fmap_compose.
  set (zs := (fun v : R => (v - m) / s) <$> xs).
  assert (Hzlen : length zs = length xs) by apply length_fmap.
  assert (Hzs : numbers (Some <$> zs) <> []).
  { rewrite numbers_Some. destruct zs; [simpl in Hzlen; lia|discriminate]. }
  assert (Hmean : mean (Some <$> zs) = Some 0).
  { rewrite (mean_numbers _ Hzs), numbers_Some, Hzlen. f_equal.
    unfold zs.
    change (fun v : R => (v - m) / s) with ((fun x => x / s) ∘ (fun x => x - m)).
    rewrite list_fmap_compose, rsum_div, rsum_sub, <- Hm. field.
    split; [lra|assumption]. }
  split; [exact Hmean|]. split.
  - unfold std. rewrite Hmean, numbers_Some, Hzlen.
    destruct (decide (length xs <= 1)%nat) as [|_]; [lia|].
    f_equal. fold k. unfold zs. rewrite (rsum_sq_scaled m s xs Hne). fold ssq.
    rewrite Hss. rewrite <- sqrt_1. f_equal. field. split; lra.
  - apply Forall_fmap, Forall_forall. intros z _. now exists z.
Qed.

(** *** The table *)

Lemma dropna_spec (raw : list car) (r : car) :
  r ∈ dropna raw <-> r ∈ raw /\ Forall is_Some (cells r).
Proof.
  unfold dropna. rewrite list_elem_of_filter, Is_true_true, forallb_forall.
  rewrite Forall_forall. split.
  - intros [H1 H2]. split; [assumption|]. intros c Hc.
    apply list_elem_of_In in Hc. specialize (H1 c Hc).
    destruct c; [now eexists|discriminate].
  - intros [H1 H2]. split; [|assumption]. intros c Hc.
    apply list_elem_of_In in Hc. specialize (H2 c Hc).
    now destruct H2 as [x ->].
Qed.

Lemma dropna_complete (raw : list car) (f : car -> fcell) :
  (forall r, f r ∈ cells r) -> Forall is_Some (f <$> dropna raw).
Proof.
  intros Hf. apply Forall_fmap, Forall_forall. intros r Hr.
  apply dropna_spec in Hr. destruct Hr as [_ Hr].
  rewrite Forall_forall in Hr. apply Hr, Hf.
Qed.

Lemma filter_all {A} (P : A -> Prop) `{!forall x, Decision (P x)} (l : list A) :
  Forall P l -> filter P l = l.
Proof.
  induction 1 as [|x l Hx _ IH]; [reflexivity|].
  rewrite filter_cons, IH. now destruct (decide (P x)).
Qed.

(** The table after the one-hot encoding: the seven columns that stay,
    then one indicator column for each origin. *)
Lemma encoded_columns (raw : list car) :
  let d := dropna raw in
  encoded raw =
  [ (Name "MPG", MPG <$> d);
    (Name "Cylinders", Cylinders <$> d);
    (Name "Displacement", Displacement <$> d);
    (Name "Horsepower", Horsepower <$> d);
    (Name "Weight", Weight <$> d);
    (Name "Acceleration", Acceleration <$> d);
    (Name "Model Year", Model_Year <$> d) ] ++
  get_dummies (Origin <$> d) "Origin".
Proof.
  intros d. unfold encoded, one_hot, drop_column. fold d.
  rewrite filter_app. f_equal.
  apply filter_all, Forall_fmap, Forall_forall. intros v _. discriminate.
Qed.

Lemma elem_of_categories (col : list fcell) (v : R) :
  v ∈ categories col <-> Some v ∈ col.
Proof.
  unfold categories.
  now rewrite merge_sort_Permutation, elem_of_remove_dups, elem_of_numbers.
Qed.

Lemma categories_NoDup (col : list fcell) : NoDup (categories col).
Proof.
  unfold categories. rewrite merge_sort_Permutation. apply NoDup_remove_dups.
Qed.

Lemma encoded_labels_NoDup (raw : list car) : NoDup (encoded raw).*1.
Proof.
  rewrite encoded_columns. rewrite fmap_app. apply NoDup_app. split; [|split].
  - apply (bool_decide_unpack _). vm_compute. exact I.
  - intros l Hl Hl'. unfold get_dummies in Hl'.
    rewrite <- list_fmap_compose in Hl'. apply list_elem_of_fmap in Hl'.
    destruct Hl' as (v & -> & _). simpl in Hl.
    repeat (apply elem_of_cons in Hl; destruct Hl as [Hl|Hl]; [discriminate|]).
    inversion Hl.
  - unfold get_dummies. rewrite <- list_fmap_compose.
    apply NoDup_fmap_2; [|apply categories_NoDup].
    intros v v' H. simpl in H. congruence.
Qed.

Lemma X_columns_cons (p : label * list fcell) (rest : frame) :
  NoDup (p :: rest).*1 -> X_columns (p :: rest) = rest.*2.
Proof.
  intros Hnd. rewrite fmap_cons in Hnd. apply NoDup_cons in Hnd.
  destruct Hnd as [Hp _]. unfold X_columns, X_cols.
  rewrite fmap_cons. simpl tail. rewrite filter_cons.
  destruct (decide (p.1 ∈ rest.*1)) as [|_]; [contradiction|].
  f_equal. apply filter_all, Forall_forall. intros q Hq.
  apply list_elem_of_fmap. now exists q.
Qed.

(** The input columns: all but [MPG]. *)
Lemma X_columns_encoded (raw : list car) :
  let d := dropna raw in
  X_columns (encoded raw) =
  [ Cylinders <$> d; Displacement <$> d; Horsepower <$> d; Weight <$> d;
    Acceleration <$> d; Model_Year <$> d ] ++
  ((fun v => indicator v <$> (Origin <$> d)) <$> categories (Origin <$> d)).
Proof.
  intros d. pose proof (encoded_labels_NoDup raw) as Hnd.
  rewrite encoded_columns in *. fold d in Hnd |- *.
  simpl app in *. rewrite (X_columns_cons _ _ Hnd).
  rewrite !fmap_cons. simpl. repeat f_equal.
  unfold get_dummies. now rewrite <- list_fmap_compose.
Qed.

(** [len(X_cols)]: six columns of the file and one for each origin, nine
    with the three origins of the Auto MPG data. *)
Lemma X_cols_length (raw : list car) :
  length (X_cols (encoded raw)) =
  (6 + length (categories (Origin <$> dropna raw)))%nat.
Proof.
  unfold X_cols. rewrite encoded_columns. simpl.
  unfold get_dummies. now rewrite !length_fmap.
Qed.

Lemma apply_cols_labels (f : list fcell -> list fcell) (cols : list label)
    (data : frame) : (apply_cols f cols data).*1 = data.*1.
Proof.
  unfold apply_cols. rewrite <- list_fmap_compose. apply list_fmap_ext.
  intros i p _. simpl. now destruct (decide (p.1 ∈ cols)).
Qed.

Lemma apply_cols_selected (f : list fcell -> list fcell) (cols : list label)
    (data : frame) :
  (filter (fun p => p.1 ∈ cols) (apply_cols f cols data)).*2 =
  f <$> (filter (fun p => p.1 ∈ cols) data).*2.
Proof.
  unfold apply_cols. induction data as [|p data IH]; [reflexivity|].
  rewrite fmap_cons, !filter_cons.
  destruct (decide (p.1 ∈ cols)) as [Hin|Hnin].
  - simpl. destruct (decide (p.1 ∈ cols)); [|contradiction].
    rewrite !fmap_cons, IH. reflexivity.
  - destruct (decide (p.1 ∈ cols)); [contradiction|]. exact IH.
Qed.

(** The input columns after the normalization are the input columns
    before it, normalized. *)
Lemma X_columns_preprocess (raw : list car) :
  X_columns (preprocess raw) = normalize <$> X_columns (encoded raw).
Proof.
  assert (E : X_cols (preprocess raw) = X_cols (encoded raw)).
  { unfold X_cols, preprocess. now rewrite apply_cols_labels. }
  unfold X_columns.
  rewrite (list_filter_iff (fun p : label * list fcell => p.1 ∈ X_cols (preprocess raw))
             (fun p => p.1 ∈ X_cols (encoded raw)))
    by (intros p; now rewrite E).
  apply apply_cols_selected.
Qed.

Lemma indicator_is_Some (v : R) (c : fcell) : is_Some (indicator v c).
Proof. unfold indicator. destruct c; [destruct (decide (r = v))|]; eauto. Qed.

(** No cell is missing in the table that the encoding makes. *)
Lemma encoded_complete (raw : list car) :
  Forall (fun p => Forall is_Some p.2) (encoded raw).
Proof.
  rewrite encoded_columns. apply Forall_app. split.
  - repeat (apply Forall_cons; split;
            [apply dropna_complete; intros r; unfold cells; set_solver|]).
    apply Forall_nil_2.
  - unfold get_dummies. apply Forall_fmap, Forall_forall. intros v _. simpl.
    apply Forall_fmap, Forall_forall. intros c _. apply indicator_is_Some.
Qed.

(** When the origin takes two values, every indicator column varies. *)
Lemma indicator_varies (col : list fcell) (v : R) :
  varies col -> v ∈ categories col -> varies (indicator v <$> col).
Proof.
  intros (a & b & Ha & Hb & Hne) Hv. apply elem_of_categories in Hv.
  assert (H1 : Some 1 ∈ indicator v <$> col).
  { apply list_elem_of_fmap. exists (Some v). split; [|assumption].
    simpl. now destruct (decide (v = v)). }
  assert (H0 : Some 0 ∈ indicator v <$> col).
  { destruct (decide (a = v)) as [->|Hav].
    - apply list_elem_of_fmap. exists (Some b). split; [|assumption].
      simpl. destruct (decide (b = v)); [congruence|reflexivity].
    - apply list_elem_of_fmap. exists (Some a). split; [|assumption].
      simpl. destruct (decide (a = v)); [congruence|reflexivity]. }
  exists 1, 0. repeat split; [assumption..|lra].
Qed.

(** What the precondition of the normalization comes to on the table
    read from the file. *)
Lemma X_columns_vary (raw : list car) :
  let d := dropna raw in
  varies (Cylinders <$> d) -> varies (Displacement <$> d) ->
  varies (Horsepower <$> d) -> varies (Weight <$> d) ->
  varies (Acceleration <$> d) -> varies (Model_Year <$> d) ->
  varies (Origin <$> d) ->
  Forall varies (X_columns (encoded raw)).
Proof.
  intros d H1 H2 H3 H4 H5 H6 H7. rewrite X_columns_encoded. fold d.
  apply Forall_app. split.
  - repeat (apply Forall_cons; split; [assumption|]). apply Forall_nil_2.
  - apply Forall_fmap, Forall_forall. intros v Hv. simpl.
    now apply indicator_varies.
Qed.

(** C2, as amended. Provided every input column of the table, after the
    rows with a missing value are dropped and the origin is one-hot
    encoded, has two different values, every input column of the
    normalized table has mean 0 and sample standard deviation 1, no cell
    of the table is missing, and the rows kept by [dropna] are the rows of
    the file without a missing value. *)
Theorem normalized_columns (raw : list car) :
  Forall varies (X_columns (encoded raw)) ->
  Forall (fun c => mean c = Some 0 /\ std c = Some 1) (X_columns (preprocess raw)) /\
  Forall (fun p => Forall is_Some p.2) (preprocess raw) /\
  (forall r, r ∈ dropna raw <-> r ∈ raw /\ Forall is_Some (cells r)).
Proof.
  intros Hv. pose proof (encoded_complete raw) as Hc.
  assert (HX : forall c, c ∈ X_columns (encoded raw) -> exists xs, c = Some <$> xs).
  { intros c Hin. apply all_numbers. unfold X_columns in Hin.
    apply list_elem_of_fmap in Hin. destruct Hin as (p & -> & Hp).
    apply list_elem_of_filter in Hp. destruct Hp as [_ Hp].
    rewrite Forall_forall in Hc. now apply Hc. }
  split; [|split].
  - rewrite X_columns_preprocess. apply Forall_fmap, Forall_forall.
    intros c Hin. simpl. rewrite Forall_forall in Hv. specialize (Hv c Hin).
    destruct (HX c Hin) as [xs ->].
    destruct (standardized xs Hv) as (Hm & Hs & _). now split.
  - unfold preprocess, apply_cols. apply Forall_fmap, Forall_forall.
    intros p Hp. simpl.
    destruct (decide (p.1 ∈ X_cols (encoded raw))) as [Hin|_].
    + assert (HpX : p.2 ∈ X_columns (encoded raw)).
      { unfold X_columns. apply list_elem_of_fmap. exists p. split; [reflexivity|].
        apply list_elem_of_filter. now split. }
      rewrite Forall_forall in Hv. specialize (Hv _ HpX).
      destruct (HX _ HpX) as [xs Hxs]. simpl. rewrite Hxs in *.
      now destruct (standardized xs Hv) as (_ & _ & H).
    + rewrite Forall_forall in Hc. now apply Hc.
  - apply dropna_spec.
Qed.

Lemma normalized_columns_witness :
  let r1 := mk_car (Some 18) (Some 8) (Some 307) (Some 130) (Some 3504) (Some 12)
                   (Some 70) (Some 1) in
  let r2 := mk_car (Some 25) (Some 4) (Some 98) None (Some 2046) (Some 19)
                   (Some 71) (Some 1) in
  let r3 := mk_car (Some 24) (Some 4) (Some 113) (Some 95) (Some 2372) (Some 15)
                   (Some 71) (Some 3) in
  let raw := [r1; r2; r3] in
  dropna raw = [r1; r3] /\
  Forall varies (X_columns (encoded raw)) /\
  Forall (fun c => mean c = Some 0 /\ std c = Some 1) (X_columns (preprocess raw)) /\
  Forall (fun p => Forall is_Some p.2) (preprocess raw).
Proof.
  intros r1 r2 r3 raw.
  assert (Hd : dropna raw = [r1; r3]) by reflexivity.
  assert (Hv : Forall varies (X_columns (encoded raw))).
  { apply X_columns_vary; rewrite Hd; simpl;
      [exists 8, 4|exists 307, 113|exists 130, 95|exists 3504, 2372
      |exists 12, 15|exists 70, 71|exists 1, 3];
      (split; [set_solver|split; [set_solver|lra]]). }
  split; [exact Hd|]. split; [exact Hv|].
  destruct (normalized_columns raw Hv) as (H1 & H2 & _). now split.
Defined.

Lemma not_varies_replicate (v : R) (n : nat) : ~ varies (replicate n (Some v)).
Proof.
  intros (a & b & Ha & Hb & Hne).
  apply elem_of_replicate in Ha, Hb. destruct Ha as [Ha _], Hb as [Hb _].
  congruence.
Qed.

Lemma normalize_constant_all (c : list fcell) :
  ~ varies c -> normalize c = replicate (length c) None.
Proof.
  intros Hv. apply list_eq. intros i.
  destruct (c !! i) as [x|] eqn:Hx.
  - rewrite (normalize_constant c i x Hv Hx).
    symmetry. apply lookup_replicate_2. eapply lookup_lt_Some; eassumption.
  - apply lookup_ge_None in Hx. rewrite !(proj2 (lookup_ge_None _ _)); [reflexivity| |].
    + now rewrite length_replicate.
    + unfold normalize. now rewrite length_fmap.
Qed.

(** C2 as stated fails: with eight cylinders in every row the column
    [Cylinders] has standard deviation zero, its normalization is 0/0 in
    every row, and the mean of the column is not a number. *)
Lemma normalized_columns_counterexample :
  let raw :=
    [ mk_car (Some 18) (Some 8) (Some 307) (Some 130) (Some 3504) (Some 12)
             (Some 70) (Some 1);
      mk_car (Some 15) (Some 8) (Some 350) (Some 165) (Some 3693) (Some 11.5)
             (Some 70) (Some 1) ] in
  ~ Forall (fun c => mean c = Some 0 /\ std c = Some 1) (X_columns (preprocess raw)).
Proof.
  intros raw H. rewrite X_columns_preprocess, X_columns_encoded in H.
  change (dropna raw) with raw in H. rewrite fmap_app, !fmap_cons in H.
  apply Forall_app in H. destruct H as [H _].
  apply Forall_cons in H. destruct H as [[H _] _].
  change (Cylinders <$> raw) with (replicate 2 (Some 8)) in H.
  rewrite normalize_constant_all in H by apply not_varies_replicate.
  discriminate H.
Qed.

(** C9. The sample standard deviation of a column is a number other than
    zero exactly when the column has two different values, which takes at
    least two rows; under this condition every number of the column is
    normalized by a division by that deviation, and without it no cell of
    the normalized column is a number.  A constant column does not meet the
    condition. *)
Theorem normalization_precondition (c : list fcell) :
  ((exists s, std c = Some s /\ s <> 0) <-> varies c) /\
  (varies c -> (2 <= length (numbers c))%nat) /\
  (forall i x, c !! i = Some (Some x) -> varies c ->
     exists m s, mean c = Some m /\ std c = Some s /\ s <> 0 /\
                 normalize c !! i = Some (Some ((x - m) / s))) /\
  (forall i x, c !! i = Some x -> ~ varies c -> normalize c !! i = Some None) /\
  (forall v n, ~ varies (replicate n (Some v))).
Proof.
  split; [apply std_nonzero_iff|]. split; [apply varies_length|].
  split; [|split].
  - intros i x Hx Hv.
    destruct (normalize_varies c Hv) as (m & s & Hm & Hs & Hne & Hn).
    exists m, s. repeat split; try assumption.
    now rewrite Hn, list_lookup_fmap, Hx.
  - intros i x Hx Hv. now apply (normalize_constant c i x).
  - apply not_varies_replicate.
Qed.

Lemma normalization_precondition_witness :
  exists m s, mean [Some 1; Some 3] = Some m /\ std [Some 1; Some 3] = Some s /\
    s <> 0 /\ normalize [Some 1; Some 3] !! 1%nat = Some (Some ((3 - m) / s)).
Proof.
  destruct (normalization_precondition [Some 1; Some 3]) as (_ & _ & H & _).
  apply (H 1%nat 3 eq_refl).
  exists 1, 3. split; [set_solver|split; [set_solver|lra]].
Defined.

End AutoMPGFacts.

(** ** More on the split: sizes and order *)

Module SplitSizes.
Import Battery SplitFacts.
Local Open Scope Z_scope.

Lemma np_sum_cons (b : bool) (mask : list bool) :
  np_sum (b :: mask) = ((if b then 1 else 0) + np_sum mask)%nat.
Proof.
  unfold np_sum. rewrite filter_cons. destruct b; simpl.
  - destruct (decide (Is_true true)) as [|n0]; [reflexivity|].
    exfalso. apply n0. exact I.
  - destruct (decide (Is_true false)) as [f|]; [destruct f|reflexivity].
Qed.

(** Two masks that share no index and the mask of what neither holds
    count all the indices between them. *)
Lemma np_sum_complement (a : list bool) : forall b : list bool,
  length a = length b ->
  (forall i, ~ (member a i /\ member b i)) ->
  (np_sum (mask_mul (np_invert a) (np_invert b)) + np_sum a + np_sum b)%nat = length a.
Proof.
  induction a as [|x a IH]; intros [|y b] Hlen Hdis; try discriminate; [reflexivity|].
  simpl in Hlen. injection Hlen as Hlen.
  unfold mask_mul, np_invert in *. rewrite !fmap_cons. simpl zip_with.
  rewrite !np_sum_cons. simpl length.
  specialize (IH b Hlen).
  rewrite <- IH by (intros i; apply (Hdis (S i))).
  specialize (Hdis 0%nat). unfold member in Hdis. simpl in Hdis.
  destruct x, y; simpl; try lia. exfalso. apply Hdis. now split.
Qed.

(** The mask set through a list of distinct indices counts them. *)
Lemma np_sum_index_assign (k : nat) (idx : list nat) :
  NoDup idx -> (forall i, i ∈ idx -> (i < k)%nat) ->
  np_sum (index_assign (replicate k false) idx true) = length idx.
Proof.
  intros Hnd Hin. rewrite np_sum_indices.
  rewrite index_assign_length, length_replicate.
  apply Permutation_length, NoDup_Permutation.
  - apply NoDup_filter, NoDup_seq.
  - assumption.
  - intros i. rewrite list_elem_of_filter, elem_of_seq. unfold member.
    split.
    + intros [Hm Hi].
      rewrite index_assign_lookup in Hm by (rewrite length_replicate; lia).
      destruct (decide (i ∈ idx)); [assumption|].
      rewrite lookup_replicate_2 in Hm by lia. discriminate.
    + intros Hi. specialize (Hin i Hi). split; [|lia].
      rewrite index_assign_lookup by (rewrite length_replicate; lia).
      now destruct (decide (i ∈ idx)).
Qed.

Lemma nval_fifth (anameL : list string) :
  nrst anameL < 163840 -> nval anameL = nrst anameL / 5.
Proof.
  intros H. pose proof (nrst_nonneg anameL) as H0.
  unfold nval, int16_fifth. apply int16_small.
  assert (0 <= nrst anameL / 5) by (apply Z.div_pos; lia).
  assert (nrst anameL / 5 < 32768) by (apply Z.div_lt_upper_bound; lia).
  lia.
Qed.

Section Sizes.

Variable argsort : list Z -> list nat.
Variable anameL : list string.
Variable rand : nat -> Z.
Hypothesis argsort_ok : argsort_spec argsort.

Lemma top_nval_facts :
  1 <= nval anameL ->
  NoDup (top_nval argsort anameL rand) /\
  (forall i, i ∈ top_nval argsort anameL rand -> (i < ncell anameL)%nat) /\
  Z.of_nat (length (top_nval argsort anameL rand)) = nval anameL.
Proof.
  intros Hn. rewrite (top_nval_drop argsort anameL rand argsort_ok Hn).
  pose proof (argsort_NoDup argsort anameL rand argsort_ok) as Hnd.
  set (k := (ncell anameL - Z.to_nat (nval anameL))%nat).
  rewrite <- (take_drop k (argsort (irnd anameL rand))) in Hnd.
  apply NoDup_app in Hnd. destruct Hnd as (_ & _ & Hnd).
  split; [exact Hnd|]. split.
  - intros i Hi. apply (argsort_elem argsort anameL rand argsort_ok).
    rewrite <- (take_drop k (argsort (irnd anameL rand))).
    apply elem_of_app. now right.
  - rewrite length_drop, (argsort_length argsort anameL rand argsort_ok).
    pose proof (nval_le_nrst anameL). unfold nrst in *. unfold k. lia.
Qed.

(** X1. With five or more cells outside the test set (and fewer than
    163840, so that [np.int16] does not wrap) and draws other than zero for
    them, the validation set has a fifth of those cells, rounded down, the
    training set has the rest of them, the test set has the cells of batch
    3, and the three sizes add up to the number of cells. *)
Theorem split_sizes :
  5 <= nrst anameL < 163840 ->
  (forall j, (j < ncell anameL)%nat ->
             ~ member (iD argsort anameL rand tst) j -> 0 < rand j) ->
  Z.of_nat (n argsort anameL rand val) = nrst anameL / 5 /\
  Z.of_nat (n argsort anameL rand trn) = nrst anameL - nrst anameL / 5 /\
  n argsort anameL rand tst = ntst anameL /\
  (n argsort anameL rand trn + n argsort anameL rand val + n argsort anameL rand tst)%nat
    = ncell anameL.
Proof.
  intros Hr Hpos. unfold n. simpl iD.
  assert (Hn5 : nval anameL = nrst anameL / 5) by (apply nval_fifth; lia).
  assert (Hn : 1 <= nval anameL).
  { rewrite Hn5. apply Z.div_le_lower_bound; lia. }
  destruct (top_nval_facts Hn) as (Hnd & Hlt & Hlen).
  assert (Hval : np_sum (iD_val argsort anameL rand) =
                 length (top_nval argsort anameL rand)).
  { unfold iD_val. now apply np_sum_index_assign. }
  assert (Hsum : (np_sum (iD_trn argsort anameL rand) +
                  np_sum (iD_val argsort anameL rand) +
                  np_sum (iD_tst anameL))%nat = ncell anameL).
  { unfold iD_trn. rewrite np_sum_complement.
    - apply iD_val_length.
    - now rewrite iD_val_length, iD_tst_length.
    - intros i. now apply val_tst_disjoint. }
  fold (ntst anameL) in Hsum. unfold nrst in *. fold (ntst anameL).
  repeat split; lia.
Qed.

(** X2. With fewer than five cells outside the test set a fifth of them
    is no cell, the slice [[-0:]] takes every index, and the validation set
    is all the cells, those of the test set too; no cell is left to train
    on. *)
Theorem split_of_few_cells :
  nrst anameL < 5 ->
  iD argsort anameL rand val = replicate (ncell anameL) true /\
  iD argsort anameL rand trn = replicate (ncell anameL) false /\
  n argsort anameL rand val = ncell anameL /\
  n argsort anameL rand trn = 0%nat.
Proof.
  intros Hr. pose proof (nrst_nonneg anameL) as H0.
  assert (Hn : nval anameL = 0).
  { rewrite nval_fifth by lia. apply Z.div_small. lia. }
  assert (Hv : iD_val argsort anameL rand = replicate (ncell anameL) true).
  { apply list_eq. intros i.
    destruct (decide (i < ncell anameL)%nat) as [Hi|Hi].
    - rewrite lookup_replicate_2 by assumption.
      now apply iD_val_all.
    - rewrite !(proj2 (lookup_ge_None _ _)); [reflexivity| |].
      + rewrite length_replicate. lia.
      + rewrite iD_val_length. lia. }
  assert (Ht : iD_trn argsort anameL rand = replicate (ncell anameL) false).
  { apply list_eq. intros i.
    destruct (decide (i < ncell anameL)%nat) as [Hi|Hi].
    - rewrite lookup_replicate_2 by assumption.
      destruct (lookup_lt_is_Some_2 (iD_tst anameL) i) as [t Hti];
        [now rewrite iD_tst_length|].
      rewrite (iD_trn_lookup argsort anameL rand i true t); [reflexivity| |exact Hti].
      now apply iD_val_all.
    - rewrite !(proj2 (lookup_ge_None _ _)); [reflexivity| |].
      + rewrite length_replicate. lia.
      + unfold iD_trn, mask_mul, np_invert.
        rewrite length_zip_with, !length_fmap, iD_val_length. lia. }
  unfold n. simpl iD. rewrite Hv, Ht. repeat split.
  - unfold np_sum. rewrite AutoMPGFacts.filter_all, length_replicate; [reflexivity|].
    apply Forall_replicate. exact I.
  - unfold np_sum. clear. induction (ncell anameL) as [|k IH]; [reflexivity|].
    simpl replicate. rewrite filter_cons.
    destruct (decide (Is_true false)) as [f|]; [destruct f|exact IH].
Qed.

(** X3. The validation cells are those with the largest draws: no
    training cell has a larger draw than a validation cell. *)
Theorem validation_has_largest_draws (i j : nat) :
  1 <= nval anameL ->
  (forall j, (j < ncell anameL)%nat ->
             ~ member (iD argsort anameL rand tst) j -> 0 < rand j) ->
  member (iD argsort anameL rand val) i ->
  member (iD argsort anameL rand trn) j ->
  rand j <= rand i.
Proof.
  simpl iD. intros Hn Hpos Hi Hj.
  assert (Hin : (i < ncell anameL)%nat).
  { apply lookup_lt_Some in Hi. now rewrite iD_val_length in Hi. }
  assert (Hjn : (j < ncell anameL)%nat).
  { apply lookup_lt_Some in Hj. unfold iD_trn, mask_mul, np_invert in Hj.
    rewrite length_zip_with, !length_fmap, iD_val_length in Hj. lia. }
  assert (Hit : ~ member (iD_tst anameL) i).
  { intros Ht. apply (val_tst_disjoint argsort anameL rand argsort_ok i Hn Hpos).
    now split. }
  destruct (trn_complement argsort anameL rand j Hjn) as (_ & Hjv & Hjt).
  assert (Hjv' : ~ member (iD_val argsort anameL rand) j) by tauto.
  assert (Hjt' : ~ member (iD_tst anameL) j) by tauto.
  assert (Hkey : forall x, (x < ncell anameL)%nat -> ~ member (iD_tst anameL) x ->
                           key (irnd anameL rand) x = rand x).
  { intros x Hx Hxt.
    destruct (lookup_lt_is_Some_2 (iD_tst anameL) x) as [[] Hb];
      [now rewrite iD_tst_length|contradiction|].
    unfold key. now rewrite (irnd_lookup anameL rand x false Hb). }
  assert (Hitop : i ∈ top_nval argsort anameL rand).
  { unfold member in Hi. rewrite iD_val_lookup in Hi by assumption.
    destruct (decide (i ∈ top_nval argsort anameL rand)) as [|n0]; [assumption|].
    rewrite bool_decide_eq_false_2 in Hi by assumption. discriminate. }
  assert (Hjtop : j ∉ top_nval argsort anameL rand).
  { intros Hc. apply Hjv'. unfold member. rewrite iD_val_lookup by assumption.
    now rewrite bool_decide_eq_true_2. }
  rewrite (top_nval_drop argsort anameL rand argsort_ok Hn) in Hitop, Hjtop.
  set (k := (ncell anameL - Z.to_nat (nval anameL))%nat) in *.
  destruct (argsort_ok (irnd anameL rand)) as [_ Hs].
  assert (Hjp : j ∈ argsort (irnd anameL rand))
    by now apply (argsort_elem argsort anameL rand argsort_ok).
  rewrite <- (take_drop k (argsort (irnd anameL rand))) in Hs, Hjp.
  apply elem_of_app in Hjp. destruct Hjp as [Hjp|Hjp]; [|contradiction].
  pose proof (StronglySorted_app_1_elem_of _ _ _ _ _ Hs Hjp Hitop) as Hle.
  unfold key_le in Hle. now rewrite !Hkey in Hle.
Qed.

End Sizes.

Lemma split_sizes_witness :
  let anameL :=
    ["Batch1_c0"; "Batch1_c1"; "Batch2_c0"; "Batch2_c1"; "Batch2_c2"; "Batch3_c0"]%string in
  let rand := fun j => Z.of_nat (7 - j) in
  n np_argsort anameL rand val = 1%nat /\
  n np_argsort anameL rand trn = 4%nat /\
  n np_argsort anameL rand tst = 1%nat.
Proof.
  intros anameL rand.
  assert (Hr5 : nrst anameL = 5) by reflexivity.
  assert (Hr : 5 <= nrst anameL < 163840) by lia.
  assert (Hpos : forall j, (j < ncell anameL)%nat ->
            ~ member (iD np_argsort anameL rand tst) j -> 0 < rand j).
  { intros j Hj _. unfold rand. unfold ncell in Hj. simpl in Hj. lia. }
  destruct (split_sizes np_argsort anameL rand np_argsort_spec Hr Hpos)
    as (H1 & H2 & H3 & _).
  rewrite Hr5 in H1, H2. change (ntst anameL) with 1%nat in H3.
  change (5 / 5) with 1 in H1, H2. repeat split; lia.
Defined.

Lemma split_of_few_cells_witness :
  let anameL := ["Batch1_c0"; "Batch2_c0"; "Batch3_c0"]%string in
  iD np_argsort anameL (fun _ => 1) val = [true; true; true] /\
  iD np_argsort anameL (fun _ => 1) trn = [false; false; false].
Proof.
  intros anameL.
  assert (Hr : nrst anameL < 5) by reflexivity.
  destruct (split_of_few_cells np_argsort anameL (fun _ => 1) np_argsort_spec Hr)
    as (H1 & H2 & _).
  split; [exact H1|exact H2].
Defined.

Lemma validation_has_largest_draws_witness :
  let anameL :=
    ["Batch1_c0"; "Batch1_c1"; "Batch2_c0"; "Batch2_c1"; "Batch2_c2"; "Batch3_c0"]%string in
  let rand := fun j => Z.of_nat (7 - j) in
  member (iD np_argsort anameL rand val) 0 /\
  member (iD np_argsort anameL rand trn) 3 /\
  rand 3%nat <= rand 0%nat.
Proof.
  intros anameL rand.
  assert (Hi : member (iD np_argsort anameL rand val) 0) by reflexivity.
  assert (Hj : member (iD np_argsort anameL rand trn) 3) by reflexivity.
  split; [exact Hi|]. split; [exact Hj|].
  apply (validation_has_largest_draws np_argsort anameL rand np_argsort_spec 0 3);
    [vm_compute; discriminate| |exact Hi|exact Hj].
  intros j Hj' _. unfold rand. unfold ncell in Hj'. simpl in Hj'. lia.
Defined.

End SplitSizes.

(** ** The arrays [get_data] returns *)

Module DataFacts.
Import Battery SplitFacts SplitSizes.

Lemma mask_select_cons {A} (x : A) (a : list A) (b : bool) (m : list bool) :
  mask_select (x :: a) (b :: m) =
  if b then x :: mask_select a m else mask_select a m.
Proof.
  unfold mask_select. simpl zip. rewrite filter_cons. simpl.
  destruct b; simpl.
  - destruct (decide (Is_true true)) as [|n0]; [reflexivity|].
    exfalso. apply n0. exact I.
  - destruct (decide (Is_true false)) as [f|]; [destruct f|reflexivity].
Qed.

Lemma mask_select_length {A} (a : list A) : forall m : list bool,
  length a = length m -> length (mask_select a m) = np_sum m.
Proof.
  induction a as [|x a IH]; intros [|b m] H; try discriminate; [reflexivity|].
  injection H as H. rewrite mask_select_cons, np_sum_cons.
  destruct b; simpl; now rewrite IH.
Qed.

(** Three masks that hold each index exactly once between them select,
    together, every entry once. *)
Lemma mask_select_partition {A} (a : list A) : forall m1 m2 m3 : list bool,
  length m1 = length a -> length m2 = length a -> length m3 = length a ->
  (forall i, (i < length a)%nat ->
     (member m1 i \/ member m2 i \/ member m3 i) /\
     ~ (member m1 i /\ member m2 i) /\ ~ (member m1 i /\ member m3 i) /\
     ~ (member m2 i /\ member m3 i)) ->
  mask_select a m1 ++ mask_select a m2 ++ mask_select a m3 ≡ₚ a.
Proof.
  induction a as [|x a IH]; intros [|b1 m1] [|b2 m2] [|b3 m3] H1 H2 H3 Hex;
    try discriminate; [reflexivity|].
  injection H1 as H1. injection H2 as H2. injection H3 as H3.
  rewrite !mask_select_cons.
  assert (Hrec : mask_select a m1 ++ mask_select a m2 ++ mask_select a m3 ≡ₚ a).
  { apply IH; try assumption. intros i Hi. apply (Hex (S i)). simpl. lia. }
  specialize (Hex 0%nat ltac:(simpl; lia)). unfold member in Hex. simpl in Hex.
  destruct b1, b2, b3; try (exfalso; intuition congruence).
  - rewrite <- app_comm_cons. now rewrite Hrec.
  - rewrite <- app_comm_cons, <- Permutation_middle. now rewrite Hrec.
  - rewrite app_assoc, <- Permutation_middle, <- app_assoc. now rewrite Hrec.
Qed.

Lemma weights_length (ys : list Q) : length (weights ys) = length ys.
Proof.
  unfold weights, bins. simpl foldl.
  rewrite !length_zip_with, length_replicate. lia.
Qed.

Section Arrays.

Variable argsort : list Z -> list nat.
Variable np_log10 : Q -> Q.
Variable cells : list cell.
Variable rand : nat -> Z.
Variable logy : bool.

#[local] Abbreviation d := (get_data argsort np_log10 cells rand logy).
#[local] Abbreviation anameL := (aname <$> cells).

Lemma iD_length (s : dset) : length (iD argsort anameL rand s) = length cells.
Proof.
  destruct s; cbn [iD].
  - unfold iD_trn, mask_mul, np_invert.
    rewrite length_zip_with, !length_fmap, iD_val_length, iD_tst_length.
    unfold ncell. rewrite length_fmap. lia.
  - rewrite iD_val_length. unfold ncell. now rewrite length_fmap.
  - rewrite iD_tst_length. unfold ncell. now rewrite length_fmap.
Qed.

(** X4. The arrays agree in size: each set has as many labels as [n]
    counts cells for it, and there is one sample weight for each training
    label. *)
Theorem array_lengths (s : dset) :
  length (y d s) = n_cells d s /\
  length (sample_weights d) = length (y d trn).
Proof.
  split.
  - simpl. destruct logy; rewrite ?length_fmap;
      apply mask_select_length; now rewrite length_fmap, iD_length.
  - apply weights_length.
Qed.

(** X5. When the three sets are a partition (a validation cell is asked
    for and the draws outside the test set are not zero), the labels of the
    three sets are, together, the labels of all the cells, each once. *)
Theorem labels_partition :
  argsort_spec argsort ->
  (1 <= nval anameL)%Z ->
  (forall j, (j < ncell anameL)%nat ->
             ~ member (iD argsort anameL rand tst) j -> (0 < rand j)%Z) ->
  y d trn ++ y d val ++ y d tst ≡ₚ
  (if logy then np_log10 else fun q => q) <$> (cycfail <$> cells).
Proof.
  intros Hspec Hn Hpos.
  assert (Hsel : mask_select (cycfail <$> cells) (iD argsort anameL rand trn) ++
                 mask_select (cycfail <$> cells) (iD argsort anameL rand val) ++
                 mask_select (cycfail <$> cells) (iD argsort anameL rand tst)
                 ≡ₚ cycfail <$> cells).
  { apply mask_select_partition; rewrite ?iD_length, ?length_fmap; try reflexivity.
    intros i Hi.
    assert (Hi' : (i < ncell anameL)%nat) by (unfold ncell; now rewrite length_fmap).
    destruct (trn_complement argsort anameL rand i Hi') as (Ha & Hb & Hc).
    pose proof (val_tst_disjoint argsort anameL rand Hspec i Hn Hpos).
    simpl iD. tauto. }
  simpl. destruct logy.
  - rewrite <- !fmap_app. now rewrite Hsel.
  - rewrite Hsel. now rewrite list_fmap_id.
Qed.

End Arrays.

Lemma labels_partition_witness :
  let cells :=
    [mk_cell "Batch1_c0" 300; mk_cell "Batch1_c1" 500; mk_cell "Batch1_c2" 700;
     mk_cell "Batch2_c0" 2100; mk_cell "Batch2_c1" 400; mk_cell "Batch3_c0" 900] in
  let d := get_data np_argsort (fun q => q) cells (fun i => Z.of_nat (7 - i)) false in
  y d trn ++ y d val ++ y d tst ≡ₚ cycfail <$> cells.
Proof.
  intros cells d.
  pose proof (labels_partition np_argsort (fun q => q) cells
                (fun i => Z.of_nat (7 - i)) false np_argsort_spec) as H.
  simpl (if false then _ else _) in H. rewrite list_fmap_id in H.
  apply H; [vm_compute; discriminate|].
  intros j Hj _. unfold ncell in Hj. simpl in Hj. lia.
Defined.

End DataFacts.

(** ** More on the sample weights: the weight of a bin in closed form *)

Module WeightForm.
Import Battery WeightFacts Views.
Local Open Scope Q_scope.

Lemma count_cons (f : Q -> bool) (x : Q) (a : list Q) :
  count f (x :: a) = ((if f x then 1 else 0) + count f a)%Z.
Proof.
  unfold count. rewrite filter_cons.
  destruct (f x); simpl.
  - destruct (decide (Is_true true)) as [|n0]; [simpl length; lia|].
    exfalso. apply n0. exact I.
  - destruct (decide (Is_true false)) as [f0|]; [destruct f0|reflexivity].
Qed.

Lemma count_nonneg (f : Q -> bool) (a : list Q) : (0 <= count f a)%Z.
Proof. unfold count. lia. Qed.

(** The bins of [np.histogram] split the range too: a label of the range
    is counted in exactly one of them. *)
Lemma hist_bin_partition (first last x : Q) :
  first < last -> first <= x <= last ->
  let e := linspace first last 4 in
  ((if in_hist_bin 4 e 0 x then 1 else 0) + (if in_hist_bin 4 e 1 x then 1 else 0) +
   (if in_hist_bin 4 e 2 x then 1 else 0) + (if in_hist_bin 4 e 3 x then 1 else 0))%Z
  = 1%Z.
Proof.
  intros Hlt Hx e.
  destruct (linspace_4 first last) as (H0 & H1 & H2 & H3 & H4 & Hs).
  fold e in H0, H1, H2, H3, H4. set (step := (last - first) / 4) in *.
  unfold in_hist_bin. simpl Nat.eqb. cbv iota.
  destruct (Qle_bool (nth 0 e 0) x) eqn:E0; destruct (Qle_bool (nth 1 e 0) x) eqn:E1;
    destruct (Qle_bool (nth 2 e 0) x) eqn:E2; destruct (Qle_bool (nth 3 e 0) x) eqn:E3;
    destruct (Qle_bool x (nth 4 e 0)) eqn:E4; simpl; try reflexivity; exfalso;
    repeat match goal with
      | H : Qle_bool _ _ = true |- _ => apply Qle_bool_iff in H
      | H : Qle_bool ?a ?b = false |- _ =>
          assert (~ a <= b) by (rewrite <- Qle_bool_iff; congruence); clear H
      end; lra.
Qed.

Lemma counts_total (first last : Q) (a : list Q) :
  first < last -> (forall x, x ∈ a -> first <= x <= last) ->
  let e := linspace first last 4 in
  (count (in_hist_bin 4 e 0) a + count (in_hist_bin 4 e 1) a +
   count (in_hist_bin 4 e 2) a + count (in_hist_bin 4 e 3) a)%Z
  = Z.of_nat (length a).
Proof.
  intros Hlt Hin e. induction a as [|x a IH]; [reflexivity|].
  rewrite !count_cons. simpl length.
  pose proof (hist_bin_partition first last x Hlt (Hin x ltac:(left))) as Hp.
  cbv zeta in Hp. fold e in Hp.
  specialize (IH (fun y Hy => Hin y ltac:(now right))).
  destruct (in_hist_bin 4 e 0 x), (in_hist_bin 4 e 1 x), (in_hist_bin 4 e 2 x),
    (in_hist_bin 4 e 3 x); lia.
Qed.

Lemma hist_densities (ys : list Q) :
  hist ys = [density ys 0; density ys 1; density ys 2; density ys 3].
Proof.
  unfold density, hist, bin_edges, np_histogram, bins.
  destruct (hist_range ys) as [first last]. reflexivity.
Qed.

Lemma fdiv_Some (x y : Q) : ~ y == 0 -> fdiv (Some x) (Some y) = Some (x / y).
Proof.
  intros H. unfold fdiv. destruct (Qeq_bool y 0) eqn:E; [|reflexivity].
  apply Qeq_bool_iff in E. contradiction.
Qed.

Lemma fdiv_zero (x y : Q) : y == 0 -> fdiv (Some x) (Some y) = None.
Proof.
  intros H. unfold fdiv. destruct (Qeq_bool y 0) eqn:E; [reflexivity|].
  apply Qeq_bool_neq in E. contradiction.
Qed.

(** The entry of [invhist] for a bin: the number of labels over four
    times the count of the bin, and no number when the bin is empty. *)
Lemma invhist_closed (ys : list Q) (ii : nat) :
  ys <> [] -> (ii < bins)%nat ->
  let c := count (in_hist_bin bins (bin_edges ys) ii) ys in
  (c = 0%Z -> nth ii (invhist ys) None = None) /\
  (c <> 0%Z -> exists q, nth ii (invhist ys) None = Some q /\
                 q == inject_Z (Z.of_nat (length ys)) / (4 * inject_Z c)).
Proof.
  intros Hne Hii c. unfold bins in *.
  destruct (hist_range_spec ys) as [Hlt Hin].
  pose proof (counts_total _ _ ys Hlt Hin) as Htot. cbv zeta in Htot.
  destruct (linspace_4 (hist_range ys).1 (hist_range ys).2)
    as (H0 & H1 & H2 & H3 & H4 & Hs).
  pose proof (bin_edges_linspace ys) as He. unfold bins in He.
  rewrite <- He in Htot, H0, H1, H2, H3, H4. clear He.
  set (e := bin_edges ys) in *.
  set (step := ((hist_range ys).2 - (hist_range ys).1) / 4) in *.
  set (c0 := count (in_hist_bin 4 e 0) ys) in *.
  set (c1 := count (in_hist_bin 4 e 1) ys) in *.
  set (c2 := count (in_hist_bin 4 e 2) ys) in *.
  set (c3 := count (in_hist_bin 4 e 3) ys) in *.
  assert (Hn : (0 < Z.of_nat (length ys))%Z) by (destruct ys; [congruence|simpl; lia]).
  assert (Hstep : 0 < step) by lra.
  assert (Hq : inject_Z (c0 + (c1 + (c2 + (c3 + 0)))) ==
               inject_Z c0 + inject_Z c1 + inject_Z c2 + inject_Z c3).
  { rewrite !inject_Z_plus. change (inject_Z 0) with 0. ring. }
  assert (Hqn : inject_Z (Z.of_nat (length ys)) ==
                inject_Z c0 + inject_Z c1 + inject_Z c2 + inject_Z c3).
  { rewrite <- Htot, !inject_Z_plus. reflexivity. }
  assert (Hnpos : 0 < inject_Z c0 + inject_Z c1 + inject_Z c2 + inject_Z c3).
  { rewrite <- Hqn. change 0 with (inject_Z 0). rewrite <- Zlt_Qlt. exact Hn. }
  assert (Hc : forall k, 0 <= inject_Z (count (in_hist_bin 4 e k) ys)).
  { intros k. change 0 with (inject_Z 0). rewrite <- Zle_Qle. apply count_nonneg. }
  pose proof (Hc 0%nat) as Hc0. pose proof (Hc 1%nat) as Hc1.
  pose proof (Hc 2%nat) as Hc2. pose proof (Hc 3%nat) as Hc3.
  fold c0 in Hc0. fold c1 in Hc1. fold c2 in Hc2. fold c3 in Hc3.
  assert (Hd : forall k, (k < 4)%nat ->
             density ys k =
             Some (inject_Z (count (in_hist_bin 4 e k) ys) / (nth (S k) e 0 - nth k e 0) /
                   inject_Z (c0 + (c1 + (c2 + (c3 + 0)))))).
  { intros k Hk. unfold density. fold e c0 c1 c2 c3.
    rewrite fdiv_Some; [rewrite fdiv_Some; [reflexivity|]|].
    - rewrite Hq. lra.
    - destruct k as [|[|[|[|k]]]]; [| | | |lia]; lra. }
  rewrite invhist_nth, hist_densities.
  unfold np_mean. simpl length. unfold fsum. simpl foldr.
  rewrite !Hd by lia. fold c0 c1 c2 c3.
  change (inject_Z (Z.of_nat 4)) with 4.
  rewrite fdiv_Some by lra.
  assert (Hnth : nth ii [Some (inject_Z c0 / (nth 1 e 0 - nth 0 e 0) /
                               inject_Z (c0 + (c1 + (c2 + (c3 + 0)))));
                         Some (inject_Z c1 / (nth 2 e 0 - nth 1 e 0) /
                               inject_Z (c0 + (c1 + (c2 + (c3 + 0)))));
                         Some (inject_Z c2 / (nth 3 e 0 - nth 2 e 0) /
                               inject_Z (c0 + (c1 + (c2 + (c3 + 0)))));
                         Some (inject_Z c3 / (nth 4 e 0 - nth 3 e 0) /
                               inject_Z (c0 + (c1 + (c2 + (c3 + 0)))))] None =
                 Some (inject_Z c / (nth (S ii) e 0 - nth ii e 0) /
                       inject_Z (c0 + (c1 + (c2 + (c3 + 0)))))).
  { subst c. fold e. destruct ii as [|[|[|[|ii]]]]; [reflexivity..|lia]. }
  rewrite Hnth. clear Hnth.
  assert (Hdb : nth (S ii) e 0 - nth ii e 0 == step).
  { destruct ii as [|[|[|[|ii]]]]; [| | | |lia]; lra. }
  assert (Hdb0 : nth 1 e 0 - nth 0 e 0 == step) by lra.
  assert (Hdb1 : nth 2 e 0 - nth 1 e 0 == step) by lra.
  assert (Hdb2 : nth 3 e 0 - nth 2 e 0 == step) by lra.
  assert (Hdb3 : nth 4 e 0 - nth 3 e 0 == step) by lra.
  assert (Hcnn : 0 <= inject_Z c) by apply Hc.
  split.
  - intros Hz. apply fdiv_zero. rewrite Hz. change (inject_Z 0) with 0.
    unfold Qdiv. ring.
  - intros Hnz. eexists. split.
    + apply fdiv_Some. rewrite Hdb, Hq.
      assert (0 < inject_Z c).
      { change 0 with (inject_Z 0). rewrite <- Zlt_Qlt.
        pose proof (count_nonneg (in_hist_bin 4 e ii) ys). subst c. fold e. lia. }
      intros Hz. 
      assert (Hm : inject_Z c == 0).
      { rewrite <- (Qmult_0_l (step * (inject_Z c0 + inject_Z c1 + inject_Z c2 + inject_Z c3))).
        rewrite <- Hz. field. split; lra. }
      lra.
    + rewrite Hdb, Hdb0, Hdb1, Hdb2, Hdb3, Hq, Hqn.
      assert (0 < inject_Z c).
      { change 0 with (inject_Z 0). rewrite <- Zlt_Qlt.
        pose proof (count_nonneg (in_hist_bin 4 e ii) ys). subst c. fold e. lia. }
      field. repeat split; lra.
Qed.

(** The weight of a label is the entry of [invhist] for the bin that
    selects it. *)
Lemma weights_lookup_sel (ys : list Q) (j : nat) (yj : Q) (ii : nat) :
  ys !! j = Some yj -> (ii < bins)%nat -> sel (bin_edges ys) ii yj = true ->
  weights ys !! j = Some (nth ii (invhist ys) None).
Proof.
  intros Hy Hii Hsel.
  destruct (hist_range_spec ys) as [Hlt Hin].
  assert (Hx : yj ∈ ys) by (eapply list_elem_of_lookup_2; eassumption).
  destruct (sel_partition _ _ yj Hlt (Hin yj Hx)) as (i0 & _ & _ & Hu).
  pose proof (bin_edges_linspace ys) as He. unfold bins in He, Hii.
  rewrite <- He in Hu. clear He.
  assert (Hall : forall k, (k < 4)%nat -> sel (bin_edges ys) k yj = true -> k = ii).
  { intros k Hk Hs. rewrite (Hu k Hk Hs). symmetry. now apply Hu. }
  rewrite (weights_lookup ys j yj Hy).
  destruct (sel (bin_edges ys) 3 yj) eqn:E3;
    [rewrite <- (Hall 3%nat) by (assumption || lia); reflexivity|].
  destruct (sel (bin_edges ys) 2 yj) eqn:E2;
    [rewrite <- (Hall 2%nat) by (assumption || lia); reflexivity|].
  destruct (sel (bin_edges ys) 1 yj) eqn:E1;
    [rewrite <- (Hall 1%nat) by (assumption || lia); reflexivity|].
  destruct (sel (bin_edges ys) 0 yj) eqn:E0;
    [rewrite <- (Hall 0%nat) by (assumption || lia); reflexivity|].
  exfalso. destruct ii as [|[|[|[|ii]]]]; try congruence. lia.
Qed.

(** X6. The sample weight in closed form: a label selected for bin [ii]
    gets the number of training labels over four times the number of
    labels that [np.histogram] counted in bin [ii], and a weight that is
    not a number when that bin was counted empty. *)
Theorem weight_closed_form (ys : list Q) (j : nat) (yj : Q) (ii : nat) :
  ys !! j = Some yj -> (ii < bins)%nat -> sel (bin_edges ys) ii yj = true ->
  let c := count (in_hist_bin bins (bin_edges ys) ii) ys in
  (c = 0%Z -> weights ys !! j = Some None) /\
  (c <> 0%Z -> exists q, weights ys !! j = Some (Some q) /\
                 q == inject_Z (Z.of_nat (length ys)) / (4 * inject_Z c)).
Proof.
  intros Hy Hii Hsel c.
  assert (Hne : ys <> []) by (intros ->; discriminate).
  rewrite (weights_lookup_sel ys j yj ii Hy Hii Hsel).
  destruct (invhist_closed ys ii Hne Hii) as [H0 H1]. fold c in H0, H1.
  split.
  - intros Hc. now rewrite H0.
  - intros Hc. destruct (H1 Hc) as (q & Hq & Hv). exists q. now rewrite Hq.
Qed.

Lemma weight_closed_form_witness :
  exists q, weights [500; 700; 2100; 400] !! 2%nat = Some (Some q) /\ q == 4 / (4 * 1).
Proof.
  destruct (weight_closed_form [500; 700; 2100; 400] 2 2100 3 eq_refl
              ltac:(unfold bins; lia) eq_refl) as [_ H].
  apply H. vm_compute. discriminate.
Defined.

Lemma foldl_qmin_same (v : Q) (k : nat) : foldl qmin v (replicate k v) = v.
Proof.
  induction k as [|k IH]; [reflexivity|]. simpl.
  replace (qmin v v) with v by (unfold qmin; now destruct (Qle_bool v v)).
  exact IH.
Qed.

Lemma foldl_qmax_same (v : Q) (k : nat) : foldl qmax v (replicate k v) = v.
Proof.
  induction k as [|k IH]; [reflexivity|]. simpl.
  replace (qmax v v) with v by (unfold qmax; now destruct (Qle_bool v v)).
  exact IH.
Qed.

Lemma count_replicate_false (f : Q -> bool) (v : Q) (k : nat) :
  f v = false -> count f (replicate k v) = 0%Z.
Proof.
  intros H. induction k as [|k IH]; [reflexivity|].
  simpl replicate. now rewrite count_cons, H, IH.
Qed.

(** X7. When all the training labels are one and the same whole number
    [z] (raw cycle lives, [logy = False]; a single training cell, say),
    whose halves and quarters the floats hold exactly, the range of the
    histogram is widened by a half on both sides, the labels sit on the
    edge between the second and the third bin, the loop selects them for
    the second bin, which the histogram counted empty, and no sample weight
    is a number. *)
Theorem weights_of_equal_labels (z : Z) (k : nat) :
  (Z.abs z < 2 ^ 50)%Z ->
  let v := inject_Z z in
  let ys := replicate (S k) v in
  Forall2 Qeq (bin_edges ys)
    [v - (1 # 2); v - (1 # 4); v; v + (1 # 4); v + (1 # 2)] /\
  sel (bin_edges ys) 1 v = true /\
  count (in_hist_bin bins (bin_edges ys) 1) ys = 0%Z /\
  weights ys = replicate (S k) None.
Proof.
  intros _ v ys.
  assert (Hr : hist_range ys = (v - (1 # 2), v + (1 # 2))).
  { unfold ys. change (replicate (S k) v) with (v :: replicate k v).
    unfold hist_range. cbv beta iota.
    rewrite foldl_qmin_same, foldl_qmax_same.
    now rewrite (proj2 (Qeq_bool_iff v v) (Qeq_refl v)). }
  pose proof (bin_edges_linspace ys) as He. rewrite Hr in He. simpl in He.
  unfold bins in He.
  destruct (linspace_4 (v - (1 # 2)) (v + (1 # 2))) as (H0 & H1 & H2 & H3 & H4 & Hs).
  assert (Hedges : Forall2 Qeq (bin_edges ys)
                     [v - (1 # 2); v - (1 # 4); v; v + (1 # 4); v + (1 # 2)]).
  { rewrite He. unfold linspace in *. cbn [seq fmap list_fmap app nth] in *.
    repeat constructor; lra. }
  rewrite <- He in H0, H1, H2, H3, H4.
  set (step := (v + (1 # 2) - (v - (1 # 2))) / 4) in *.
  assert (Hsel : sel (bin_edges ys) 1 v = true) by (apply sel_later; lra).
  assert (Hc : count (in_hist_bin bins (bin_edges ys) 1) ys = 0%Z).
  { apply count_replicate_false. unfold in_hist_bin, bins. simpl Nat.eqb. cbv iota.
    assert (Hle : Qle_bool (nth 2 (bin_edges ys) 0) v = true)
      by (apply Qle_bool_iff; lra).
    rewrite Hle. apply andb_false_r. }
  assert (Hne : ys <> []) by discriminate.
  destruct (invhist_closed ys 1 Hne ltac:(unfold bins; lia)) as [Hnone _].
  specialize (Hnone Hc).
  split; [exact Hedges|]. split; [exact Hsel|]. split; [exact Hc|].
  apply list_eq. intros j. destruct (decide (j < S k)%nat) as [Hj|Hj].
  - rewrite (weights_lookup_sel ys j v 1); [| |unfold bins; lia|exact Hsel].
    + rewrite Hnone. symmetry. now apply lookup_replicate_2.
    + unfold ys. now apply lookup_replicate_2.
  - rewrite !(proj2 (lookup_ge_None _ _)); [reflexivity| |].
    + rewrite length_replicate. lia.
    + rewrite DataFacts.weights_length. unfold ys. rewrite length_replicate. lia.
Qed.

Lemma weights_of_equal_labels_witness :
  let ys := [1000; 1000; 1000; 1000] in
  Forall2 Qeq (bin_edges ys)
    [1000 - (1 # 2); 1000 - (1 # 4); 1000; 1000 + (1 # 4); 1000 + (1 # 2)] /\
  sel (bin_edges ys) 1 1000 = true /\
  count (in_hist_bin bins (bin_edges ys) 1) ys = 0%Z /\
  weights ys = [None; None; None; None].
Proof. apply (weights_of_equal_labels 1000 3). simpl. lia. Defined.

End WeightForm.

(** ** The bins of the histogram against the bins of the weight loop *)

Module WeightBins.
Import Battery WeightFacts Views WeightForm.
Local Open Scope Q_scope.

Lemma count_ext (f g : Q -> bool) (a : list Q) :
  (forall x, x ∈ a -> f x = g x) -> count f a = count g a.
Proof.
  induction a as [|x a IH]; intros H; [reflexivity|].
  rewrite !count_cons, (H x) by left. rewrite IH; [reflexivity|].
  intros x' Hx'. apply H. now right.
Qed.

Lemma count_pos (f : Q -> bool) (x : Q) (a : list Q) :
  x ∈ a -> f x = true -> (0 < count f a)%Z.
Proof.
  induction a as [|x0 a IH]; intros Hx Hf; [inversion Hx|].
  rewrite count_cons. pose proof (count_nonneg f a).
  apply elem_of_cons in Hx. destruct Hx as [<-|Hx].
  - rewrite Hf. lia.
  - specialize (IH Hx Hf). destruct (f x0); lia.
Qed.

(** The five edges rise by one step, and the labels lie between the
    first and the last. *)
Lemma edges_spec (ys : list Q) :
  let e := bin_edges ys in
  exists step, 0 < step /\
    nth 1 e 0 == nth 0 e 0 + step /\ nth 2 e 0 == nth 1 e 0 + step /\
    nth 3 e 0 == nth 2 e 0 + step /\ nth 4 e 0 == nth 3 e 0 + step /\
    forall x, x ∈ ys -> nth 0 e 0 <= x <= nth 4 e 0.
Proof.
  intros e. destruct (hist_range_spec ys) as [Hlt Hin].
  destruct (linspace_4 (hist_range ys).1 (hist_range ys).2)
    as (H0 & H1 & H2 & H3 & H4 & Hs).
  pose proof (bin_edges_linspace ys) as He. unfold bins in He.
  rewrite <- He in H0, H1, H2, H3, H4. fold e in H0, H1, H2, H3, H4.
  exists (((hist_range ys).2 - (hist_range ys).1) / 4).
  set (step := ((hist_range ys).2 - (hist_range ys).1) / 4) in *.
  repeat split; try lra; specialize (Hin x H); lra.
Qed.

Ltac qle_props :=
  repeat match goal with
    | H : Qle_bool _ _ = true |- _ => apply Qle_bool_iff in H
    | H : Qle_bool ?a ?b = false |- _ =>
        assert (~ a <= b) by (rewrite <- Qle_bool_iff; congruence); clear H
    end.

(** Off the inner edges the two kinds of bins hold the same labels. *)
Lemma bins_agree (e : list Q) (x : Q) (ii : nat) :
  (ii < 4)%nat ->
  nth 0 e 0 <= x <= nth 4 e 0 ->
  ~ x == nth 1 e 0 -> ~ x == nth 2 e 0 -> ~ x == nth 3 e 0 ->
  in_hist_bin 4 e ii x = sel e ii x.
Proof.
  intros Hii Hx N1 N2 N3. unfold in_hist_bin, sel.
  destruct ii as [|[|[|[|ii]]]]; [| | | |lia]; simpl Nat.eqb; cbv iota;
    destruct (Qle_bool (nth 0 e 0) x) eqn:E0; destruct (Qle_bool (nth 1 e 0) x) eqn:E1;
    destruct (Qle_bool (nth 2 e 0) x) eqn:E2; destruct (Qle_bool (nth 3 e 0) x) eqn:E3;
    destruct (Qle_bool x (nth 1 e 0)) eqn:F1; destruct (Qle_bool x (nth 2 e 0)) eqn:F2;
    destruct (Qle_bool x (nth 3 e 0)) eqn:F3; destruct (Qle_bool x (nth 4 e 0)) eqn:F4;
    simpl; try reflexivity; exfalso; qle_props;
    first [lra | apply N1; lra | apply N2; lra | apply N3; lra].
Qed.

(** When no training label lies on an inner edge, [np.histogram] returns
    the histogram of the specification, and the weights are the ones it
    asks for. *)
Lemma hist_off_edges (ys : list Q) :
  (forall x i, x ∈ ys -> (1 <= i <= 3)%nat -> ~ x == nth i (bin_edges ys) 0) ->
  hist ys = spec_hist ys.
Proof.
  intros Hoff. rewrite hist_densities. unfold spec_hist, density, bins.
  destruct (edges_spec ys) as (step & Hstep & E1 & E2 & E3 & E4 & Hin).
  destruct (hist_range_spec ys) as [Hlt Hin'].
  pose proof (counts_total _ _ ys Hlt Hin') as Htot. cbv zeta in Htot.
  pose proof (bin_edges_linspace ys) as He. unfold bins in He.
  rewrite <- He in Htot. clear He.
  assert (Hc : forall i, (i < 4)%nat ->
             count (in_hist_bin 4 (bin_edges ys) i) ys = count (sel (bin_edges ys) i) ys).
  { intros i Hi. apply count_ext. intros x Hx.
    apply bins_agree; [exact Hi|now apply Hin|apply Hoff; [exact Hx|lia]..]. }
  replace (count (in_hist_bin 4 (bin_edges ys) 0) ys +
           (count (in_hist_bin 4 (bin_edges ys) 1) ys +
            (count (in_hist_bin 4 (bin_edges ys) 2) ys +
             (count (in_hist_bin 4 (bin_edges ys) 3) ys + 0))))%Z
    with (Z.of_nat (length ys)) by lia.
  rewrite !Hc by lia. reflexivity.
Qed.

Lemma Qdiv_pos (a b : Q) : 0 < a -> 0 < b -> 0 < a / b.
Proof. intros Ha Hb. apply Qlt_shift_div_l; [exact Hb|lra]. Qed.

Lemma Qdiv_nonneg (a b : Q) : 0 <= a -> 0 < b -> 0 <= a / b.
Proof. intros Ha Hb. apply Qle_shift_div_l; [exact Hb|lra]. Qed.

(** The weight of the specification is a positive number for a bin that
    contains a label. *)
Lemma spec_weight_number (ys : list Q) (ii : nat) (yj : Q) :
  yj ∈ ys -> (ii < bins)%nat -> sel (bin_edges ys) ii yj = true ->
  exists w, spec_weight ys ii = Some w /\ 0 < w.
Proof.
  intros Hy Hii Hsel. unfold bins in Hii.
  destruct (edges_spec ys) as (step & Hstep & E1 & E2 & E3 & E4 & Hin).
  set (e := bin_edges ys) in *.
  set (N := inject_Z (Z.of_nat (length ys))).
  assert (HN : 0 < N).
  { unfold N. change 0 with (inject_Z 0). rewrite <- Zlt_Qlt.
    destruct ys; [inversion Hy|simpl; lia]. }
  assert (Hc : forall i, 0 <= inject_Z (count (sel e i) ys)).
  { intros i. change 0 with (inject_Z 0). rewrite <- Zle_Qle. apply count_nonneg. }
  assert (Hci : 0 < inject_Z (count (sel e ii) ys)).
  { change 0 with (inject_Z 0). rewrite <- Zlt_Qlt. now apply (count_pos _ yj). }
  assert (Hw : forall i, (i < 4)%nat -> 0 < nth (S i) e 0 - nth i e 0).
  { intros i Hi. destruct i as [|[|[|[|i]]]]; [| | | |lia]; lra. }
  assert (Hd : forall i, (i < 4)%nat ->
             fdiv (fdiv (Some (inject_Z (count (sel e i) ys)))
                        (Some (nth (S i) e 0 - nth i e 0))) (Some N) =
             Some (inject_Z (count (sel e i) ys) / (nth (S i) e 0 - nth i e 0) / N)).
  { intros i Hi. specialize (Hw i Hi).
    rewrite fdiv_Some by lra. rewrite fdiv_Some by lra. reflexivity. }
  assert (Hp : forall i, (i < 4)%nat ->
             0 <= inject_Z (count (sel e i) ys) / (nth (S i) e 0 - nth i e 0) / N).
  { intros i Hi. apply Qdiv_nonneg; [|exact HN].
    apply Qdiv_nonneg; [apply Hc|now apply Hw]. }
  assert (Hpi : 0 < inject_Z (count (sel e ii) ys) / (nth (S ii) e 0 - nth ii e 0) / N).
  { apply Qdiv_pos; [|exact HN]. apply Qdiv_pos; [exact Hci|now apply Hw]. }
  assert (Hs : spec_hist ys =
               (fun i => Some (inject_Z (count (sel e i) ys) /
                               (nth (S i) e 0 - nth i e 0) / N)) <$> seq 0 4).
  { unfold spec_hist, bins. fold e N. cbn [seq fmap list_fmap].
    rewrite !Hd by lia. reflexivity. }
  pose proof (Hp 0%nat ltac:(lia)) as P0. pose proof (Hp 1%nat ltac:(lia)) as P1.
  pose proof (Hp 2%nat ltac:(lia)) as P2. pose proof (Hp 3%nat ltac:(lia)) as P3.
  unfold spec_weight. rewrite Hs. cbn [seq fmap list_fmap].
  unfold np_mean, fsum. cbn [foldr length].
  change (inject_Z (Z.of_nat 4)) with 4. rewrite fdiv_Some by lra.
  destruct ii as [|[|[|[|ii]]]]; [| | | |lia]; cbn [nth];
    (rewrite fdiv_Some by lra); eexists; (split; [reflexivity|]);
    (apply Qdiv_pos; [|exact Hpi]); apply Qdiv_pos; lra.
Qed.

(** Off the inner edges the code does what the specification says: when
    no training label lies on an inner edge, the weight of a label is the
    mean density over the density of the bin that contains it, a positive
    number. *)
Lemma weights_off_edges (ys : list Q) (j : nat) (yj : Q) :
  ys !! j = Some yj ->
  (forall x i, x ∈ ys -> (1 <= i <= 3)%nat -> ~ x == nth i (bin_edges ys) 0) ->
  exists ii w,
    (ii < bins)%nat /\ sel (bin_edges ys) ii yj = true /\
    in_hist_bin bins (bin_edges ys) ii yj = true /\
    weights ys !! j = Some (Some w) /\ spec_weight ys ii = Some w /\ 0 < w.
Proof.
  intros Hy Hoff.
  assert (Hx : yj ∈ ys) by (eapply list_elem_of_lookup_2; eassumption).
  destruct (hist_range_spec ys) as [Hlt Hin].
  destruct (sel_partition _ _ yj Hlt (Hin yj Hx)) as (ii & Hii & Hsel & _).
  pose proof (bin_edges_linspace ys) as He. unfold bins in He.
  rewrite <- He in Hsel. clear He.
  destruct (spec_weight_number ys ii yj Hx Hii Hsel) as (w & Hw & Hpos).
  destruct (edges_spec ys) as (step & _ & _ & _ & _ & _ & Hin').
  exists ii, w. split; [exact Hii|]. split; [exact Hsel|]. split.
  - unfold bins. rewrite bins_agree; [exact Hsel|exact Hii|now apply Hin'|
      apply Hoff; [exact Hx|lia]..].
  - split; [|split; assumption].
    rewrite (weights_lookup_sel ys j yj ii Hy Hii Hsel), invhist_nth.
    rewrite (hist_off_edges ys Hoff). fold (spec_weight ys ii). now rewrite Hw.
Qed.

(** C6 (the code departs from it). A training label that lies on an inner
    edge of the histogram, the one between bin [k] and bin [k+1], is
    contained in bin [k] as the weight loop and the specification cut the
    bins (open on the left, closed on the right), but [np.histogram], whose
    bins are closed on the left, has counted it in bin [k+1].  The loop
    gives it [mean(hist)/hist[k]] all the same; when [np.histogram] counted
    no label in bin [k] that weight is no number, where the inverse density
    of the bin containing the label is a positive number. *)
Theorem weight_on_inner_edge (argsort : list Z -> list nat) (np_log10 : Q -> Q)
    (cells : list cell) (rand : nat -> Z) (logy : bool) (j k : nat) (yj : Q) :
  let d := get_data argsort np_log10 cells rand logy in
  let e := bin_edges (y d trn) in
  y d trn !! j = Some yj ->
  (k < 3)%nat -> yj == nth (S k) e 0 ->
  count (in_hist_bin bins e k) (y d trn) = 0%Z ->
  (sel e k yj = true /\
   forall i, (i < bins)%nat -> sel e i yj = true -> i = k) /\
  in_hist_bin bins e k yj = false /\
  in_hist_bin bins e (S k) yj = true /\
  (exists w, spec_weight (y d trn) k = Some w /\ 0 < w) /\
  sample_weights d !! j = Some None.
Proof.
  intros d e Hy Hk Hedge Hempty.
  change (sample_weights d) with (weights (y d trn)).
  revert e Hy Hedge Hempty. generalize (y d trn). clear d. intros ys e Hy Hedge Hempty.
  destruct (edges_spec ys) as (step & Hstep & E1 & E2 & E3 & E4 & Hin).
  fold e in E1, E2, E3, E4, Hin.
  assert (Hx : yj ∈ ys) by (eapply list_elem_of_lookup_2; eassumption).
  assert (Hsel : sel e k yj = true).
  { destruct k as [|[|[|k]]]; [apply sel_first|apply sel_later..|lia]; lra. }
  assert (Hu : forall i, (i < bins)%nat -> sel e i yj = true -> i = k).
  { destruct (hist_range_spec ys) as [Hlt Hin'].
    destruct (sel_partition _ _ yj Hlt (Hin' yj Hx)) as (i0 & _ & _ & Hu).
    pose proof (bin_edges_linspace ys) as He. unfold bins in He |- *.
    rewrite <- He in Hu. fold e in Hu.
    intros i Hi Hs. rewrite (Hu i Hi Hs). symmetry. apply Hu; [lia|exact Hsel]. }
  assert (Hbins : in_hist_bin bins e k yj = false /\ in_hist_bin bins e (S k) yj = true).
  { unfold in_hist_bin, bins.
    destruct k as [|[|[|k]]]; [| | |lia]; simpl Nat.eqb; cbv iota;
      destruct (Qle_bool (nth 0 e 0) yj) eqn:G0; destruct (Qle_bool (nth 1 e 0) yj) eqn:G1;
      destruct (Qle_bool (nth 2 e 0) yj) eqn:G2; destruct (Qle_bool (nth 3 e 0) yj) eqn:G3;
      destruct (Qle_bool yj (nth 4 e 0)) eqn:G4;
      simpl; try (split; reflexivity); exfalso; qle_props; lra. }
  split; [split; assumption|]. split; [apply Hbins|]. split; [apply Hbins|].
  split.
  - apply (spec_weight_number ys k yj Hx); [unfold bins; lia|exact Hsel].
  - rewrite (weights_lookup_sel ys j yj k Hy ltac:(unfold bins; lia) Hsel).
    assert (Hne : ys <> []) by (intros ->; discriminate).
    destruct (invhist_closed ys k Hne ltac:(unfold bins; lia)) as [Hnone _].
    now rewrite Hnone.
Qed.

Lemma weight_on_inner_edge_witness :
  let cells :=
    [mk_cell "Batch1_c0" 700; mk_cell "Batch1_c1" 300; mk_cell "Batch1_c2" 1200;
     mk_cell "Batch2_c0" 2100; mk_cell "Batch2_c1" 400; mk_cell "Batch3_c0" 900] in
  let d := get_data np_argsort (fun q => q) cells (fun i => Z.of_nat (7 - i)) false in
  let e := bin_edges (y d trn) in
  y d trn = [300; 1200; 2100; 400] /\
  (sel e 1 1200 = true /\
   forall i, (i < bins)%nat -> sel e i 1200 = true -> i = 1%nat) /\
  in_hist_bin bins e 1 1200 = false /\
  in_hist_bin bins e 2 1200 = true /\
  (exists w, spec_weight (y d trn) 1 = Some w /\ 0 < w) /\
  sample_weights d !! 1%nat = Some None.
Proof.
  intros cells d e. split; [reflexivity|].
  apply (weight_on_inner_edge np_argsort (fun q => q) cells
           (fun i => Z.of_nat (7 - i)) false 1 1 1200);
    [reflexivity|lia|vm_compute; reflexivity|vm_compute; reflexivity].
Defined.

End WeightBins.

(** ** More on the Auto MPG table *)

Module TableFacts.
Import AutoMPG AutoMPGFacts Views.
Local Open Scope R_scope.

(** *** Dropping rows *)

(** X8. [dropna] keeps the rows in their order, changes nothing in a
    table without a missing value, and has nothing left to drop after it
    has run once. *)
Theorem dropna_sublist (raw : list car) :
  sublist (dropna raw) raw /\
  (Forall (fun r => Forall is_Some (cells r)) raw -> dropna raw = raw) /\
  dropna (dropna raw) = dropna raw.
Proof.
  split; [apply sublist_filter|].
  assert (Hall : forall l, Forall (fun r => Forall is_Some (cells r)) l -> dropna l = l).
  { intros l Hl. unfold dropna. apply filter_all.
    apply Forall_forall. intros r Hr.
    rewrite Forall_forall in Hl. specialize (Hl r Hr).
    apply Is_true_true, forallb_forall. intros c Hc.
    apply list_elem_of_In in Hc. rewrite Forall_forall in Hl.
    now destruct (Hl c Hc) as [x ->]. }
  split; [apply Hall|]. apply Hall.
  apply Forall_forall. intros r Hr. now apply dropna_spec in Hr.
Qed.

Lemma dropna_sublist_witness :
  let r1 := mk_car (Some 18) (Some 8) (Some 307) (Some 130) (Some 3504) (Some 12)
                   (Some 70) (Some 1) in
  dropna [r1; r1] = [r1; r1].
Proof.
  intros r1. apply (proj1 (proj2 (dropna_sublist [r1; r1]))).
  repeat constructor; now eexists.
Defined.

(** *** One-hot encoding *)

Lemma rsum_indicator (x : R) (l : list R) :
  NoDup l ->
  rsum ((fun v => if decide (x = v) then 1 else 0) <$> l) =
  if decide (x ∈ l) then 1 else 0.
Proof.
  induction 1 as [|v l Hv Hnd IH].
  - simpl. now destruct (decide (x ∈ [])) as [H|]; [inversion H|].
  - rewrite fmap_cons, rsum_cons, IH.
    destruct (decide (x = v)) as [->|Hne].
    + destruct (decide (v ∈ l)); [contradiction|].
      destruct (decide (v ∈ v :: l)) as [|n0]; [lra|]. exfalso. apply n0. left.
    + destruct (decide (x ∈ l)) as [Hin|Hnin].
      * destruct (decide (x ∈ v :: l)) as [|n0]; [lra|]. exfalso. apply n0. now right.
      * destruct (decide (x ∈ v :: l)) as [Hc|]; [|lra].
        apply elem_of_cons in Hc. tauto.
Qed.

(** X9. One-hot: in the row of a cell that holds a number, the indicator
    columns made by [get_dummies] hold zeros and a single one, in the
    column of that number; in the row of a missing cell they hold zeros
    only. *)
Theorem one_hot_row (col : list fcell) (prefix : string) (i : nat) (c : fcell) :
  col !! i = Some c ->
  Forall (fun z => z = Some 0 \/ z = Some 1) (row_of (get_dummies col prefix) i) /\
  rsum (numbers (row_of (get_dummies col prefix) i)) =
    (if c is Some _ then 1 else 0) /\
  (forall x v, c = Some x -> v ∈ categories col ->
     (row_of [(Dummy prefix v, indicator v <$> col)] i = [Some 1] <-> v = x)).
Proof.
  intros Hc.
  assert (Hrow : row_of (get_dummies col prefix) i =
                 (fun v => indicator v c) <$> categories col).
  { unfold row_of, get_dummies. rewrite <- list_fmap_compose.
    apply list_fmap_ext. intros k v _. simpl.
    now rewrite list_lookup_fmap, Hc. }
  split; [|split].
  - rewrite Hrow. apply Forall_fmap, Forall_forall. intros v _. simpl.
    destruct c as [x|]; simpl; [destruct (decide (x = v))|]; auto.
  - rewrite Hrow. destruct c as [x|].
    + replace (numbers ((fun v => indicator v (Some x)) <$> categories col))
        with ((fun v => if decide (x = v) then 1 else 0) <$> categories col).
      * rewrite rsum_indicator by apply categories_NoDup.
        destruct (decide (x ∈ categories col)) as [|n0]; [reflexivity|].
        exfalso. apply n0, elem_of_categories.
        eapply list_elem_of_lookup_2; eassumption.
      * rewrite <- (numbers_Some ((fun v => if decide (x = v) then 1 else 0) <$> categories col)).
        f_equal. rewrite <- list_fmap_compose. apply list_fmap_ext.
        intros k v _. simpl. now destruct (decide (x = v)).
    + replace (numbers ((fun v => indicator v None) <$> categories col))
        with ((fun _ : R => 0) <$> categories col).
      * clear Hrow. induction (categories col) as [|v l IH]; [reflexivity|].
        rewrite fmap_cons, rsum_cons, IH. lra.
      * rewrite <- (numbers_Some ((fun _ : R => 0) <$> categories col)).
        f_equal. now rewrite <- list_fmap_compose.
  - intros x v -> Hv. unfold row_of. simpl.
    rewrite list_lookup_fmap, Hc. simpl.
    destruct (decide (x = v)) as [->|Hne].
    + tauto.
    + split; [intros [= H]; lra|congruence].
Qed.

Lemma one_hot_row_witness :
  rsum (numbers (row_of (get_dummies [Some 1; Some 3; Some 1] "Origin") 1)) = 1.
Proof.
  exact (proj1 (proj2 (one_hot_row [Some 1; Some 3; Some 1] "Origin" 1 (Some 3) eq_refl))).
Defined.

(** *** The target column *)

(** X10. The normalization leaves the target alone: the first column of
    the preprocessed table is [MPG] as it was after [dropna], and the
    labels of the columns are those before the normalization. *)
Theorem target_untouched (raw : list car) :
  head (preprocess raw) = Some (y_col, MPG <$> dropna raw) /\
  (preprocess raw).*1 = (encoded raw).*1.
Proof.
  split; [|apply apply_cols_labels].
  pose proof (encoded_labels_NoDup raw) as Hnd.
  unfold preprocess, apply_cols, X_cols. rewrite encoded_columns in *.
  simpl app in *. rewrite fmap_cons in Hnd. apply NoDup_cons in Hnd.
  destruct Hnd as [Hnin _]. rewrite fmap_cons. simpl tail.
  rewrite fmap_cons. simpl head. simpl fst at 1.
  now case_decide; [contradiction|].
Qed.

#[local] Instance Rle_trans_inst : Transitive Rle.
Proof. intros x y z. apply Rle_trans. Qed.

#[local] Instance Rle_total_inst : Total Rle.
Proof. intros x y. destruct (Rle_lt_dec x y); [now left|right; now apply Rlt_le]. Qed.

(** X21. The network input: the preprocessed table has six input
    columns from the file and one for each origin that occurs in a row
    kept by [dropna]; these origins are listed once each, in increasing
    order. *)
Theorem input_columns (raw : list car) :
  let cats := categories (Origin <$> dropna raw) in
  length (X_cols (preprocess raw)) = (6 + length cats)%nat /\
  X_cols (preprocess raw) =
    [Name "Cylinders"; Name "Displacement"; Name "Horsepower"; Name "Weight";
     Name "Acceleration"; Name "Model Year"] ++ (Dummy "Origin" <$> cats) /\
  NoDup cats /\ StronglySorted Rle cats /\
  (forall v, v ∈ cats <-> exists r, r ∈ dropna raw /\ Origin r = Some v).
Proof.
  intros cats.
  assert (HX : X_cols (preprocess raw) =
    [Name "Cylinders"; Name "Displacement"; Name "Horsepower"; Name "Weight";
     Name "Acceleration"; Name "Model Year"] ++ (Dummy "Origin" <$> cats)).
  { unfold X_cols, preprocess. rewrite apply_cols_labels, encoded_columns.
    rewrite fmap_app. unfold get_dummies. rewrite <- list_fmap_compose.
    reflexivity. }
  split; [rewrite HX, length_app, length_fmap; reflexivity|].
  split; [exact HX|]. split; [apply categories_NoDup|]. split.
  - unfold cats, categories. apply StronglySorted_merge_sort; apply _.
  - intros v. unfold cats. rewrite elem_of_categories, list_elem_of_fmap.
    split; intros (r & H1 & H2); exists r; auto.
Qed.

(** *** The normalization as an operation *)

Lemma std_nonneg (c : list fcell) (s : R) : std c = Some s -> 0 <= s.
Proof.
  unfold std. destruct (mean c); [|discriminate].
  destruct (decide (length (numbers c) <= 1)%nat); [discriminate|].
  intros [= <-]. apply sqrt_pos.
Qed.

(** X11. Normalizing twice is normalizing once: a column of numbers that
    varies is, once normalized, a fixed point of the normalization. *)
Theorem normalize_idempotent (c : list fcell) :
  Forall is_Some c -> varies c -> normalize (normalize c) = normalize c.
Proof.
  intros Hc Hv. destruct (all_numbers c Hc) as [xs ->].
  destruct (standardized xs Hv) as (Hm & Hs & Hall).
  destruct (all_numbers _ Hall) as [zs Hzs].
  unfold normalize at 1. rewrite Hm, Hs, Hzs.
  rewrite <- list_fmap_compose. apply list_fmap_ext. intros i z _. simpl.
  destruct (decide (1 = 0)) as [H|_]; [lra|]. f_equal. field.
Qed.

Lemma normalize_idempotent_witness :
  normalize (normalize [Some 1; Some 3]) = normalize [Some 1; Some 3].
Proof.
  apply normalize_idempotent.
  - repeat constructor; now eexists.
  - exists 1, 3. split; [set_solver|split; [set_solver|lra]].
Defined.

(** X12. The normalization keeps the order of the values of a column. *)
Theorem normalize_monotone (c : list fcell) (i j : nat) (x y : R) :
  varies c -> c !! i = Some (Some x) -> c !! j = Some (Some y) ->
  exists zx zy, normalize c !! i = Some (Some zx) /\
                normalize c !! j = Some (Some zy) /\ (x <= y <-> zx <= zy).
Proof.
  intros Hv Hx Hy.
  destruct (normalize_varies c Hv) as (m & s & Hm & Hs & Hne & Hn).
  pose proof (std_nonneg c s Hs) as Hs0.
  assert (Hpos : 0 < s) by lra.
  exists ((x - m) / s), ((y - m) / s). rewrite Hn, !list_lookup_fmap, Hx, Hy.
  split; [reflexivity|]. split; [reflexivity|].
  assert (Hinv : 0 < / s) by now apply Rinv_0_lt_compat.
  unfold Rdiv. split; intros H.
  - apply Rmult_le_compat_r; lra.
  - apply Rmult_le_reg_r in H; lra.
Qed.

Lemma normalize_monotone_witness :
  exists zx zy, normalize [Some 1; Some 3] !! 0%nat = Some (Some zx) /\
                normalize [Some 1; Some 3] !! 1%nat = Some (Some zy) /\
                (1 <= 3 <-> zx <= zy).
Proof.
  apply (normalize_monotone [Some 1; Some 3] 0 1 1 3); [|reflexivity..].
  exists 1, 3. split; [set_solver|split; [set_solver|lra]].
Defined.

Lemma rsum_affine (a b : R) (xs : list R) :
  rsum ((fun x => a * x + b) <$> xs) = a * rsum xs + INR (length xs) * b.
Proof.
  induction xs as [|x xs IH].
  - simpl. lra.
  - change (length (x :: xs)) with (S (length xs)).
    rewrite S_INR, fmap_cons, !rsum_cons, IH. lra.
Qed.

Lemma rsum_sq_affine (a b m : R) (xs : list R) :
  rsum ((fun y => (y - (a * m + b)) ^ 2) <$> ((fun x => a * x + b) <$> xs)) =
  a * a * rsum ((fun x => (x - m) ^ 2) <$> xs).
Proof.
  induction xs as [|x xs IH].
  - simpl. lra.
  - rewrite !fmap_cons, !rsum_cons, IH. ring.
Qed.

(** X13. The normalization does not depend on the unit of a column:
    scaling the numbers by a positive factor and shifting them gives the
    same normalized column. *)
Theorem normalize_affine (a b : R) (xs : list R) :
  0 < a -> varies (Some <$> xs) ->
  normalize (Some <$> ((fun x => a * x + b) <$> xs)) = normalize (Some <$> xs).
Proof.
  intros Ha Hv. pose proof (varies_length _ Hv) as Hlen.
  rewrite numbers_Some in Hlen.
  destruct (normalize_varies _ Hv) as (m & s & Hm & Hs & Hne & Hn).
  pose proof (std_nonneg _ s Hs) as Hs0.
  set (ys := (fun x => a * x + b) <$> xs).
  assert (Hylen : length ys = length xs) by apply length_fmap.
  assert (Hxs : numbers (Some <$> xs) <> [])
    by (rewrite numbers_Some; destruct xs; [simpl in Hlen; lia|discriminate]).
  assert (Hys : numbers (Some <$> ys) <> []).
  { rewrite numbers_Some. destruct ys; [simpl in Hylen; lia|discriminate]. }
  rewrite (mean_numbers _ Hxs), numbers_Some in Hm. apply (inj Some) in Hm.
  assert (Hn0 : 0 < INR (length xs)) by (apply lt_0_INR; lia).
  assert (Hk : 0 < INR (length xs - 1)) by (apply lt_0_INR; lia).
  assert (Hm' : mean (Some <$> ys) = Some (a * m + b)).
  { rewrite (mean_numbers _ Hys), numbers_Some, Hylen. f_equal.
    unfold ys. rewrite rsum_affine, <- Hm. field. lra. }
  unfold std in Hs. rewrite (mean_numbers _ Hxs), numbers_Some, Hm in Hs.
  destruct (decide (length xs <= 1)%nat) as [|_]; [lia|].
  apply (inj Some) in Hs.
  assert (Hs' : std (Some <$> ys) = Some (a * s)).
  { unfold std. rewrite Hm', numbers_Some, Hylen.
    destruct (decide (length xs <= 1)%nat) as [|_]; [lia|].
    f_equal. unfold ys. rewrite rsum_sq_affine, <- Hs.
    unfold Rdiv. rewrite Rmult_assoc, sqrt_mult_alt by nra.
    now rewrite sqrt_square by lra. }
  rewrite Hn. unfold normalize. rewrite Hm', Hs'.
  unfold ys. rewrite <- !list_fmap_compose. apply list_fmap_ext.
  intros i x _. simpl.
  destruct (decide (a * s = 0)) as [H0|_]; [nra|]. f_equal. field. lra.
Qed.

Lemma normalize_affine_witness :
  normalize (Some <$> ((fun x => 2 * x + 5) <$> [1; 3])) = normalize (Some <$> [1; 3]).
Proof.
  apply normalize_affine; [lra|].
  exists 1, 3. split; [set_solver|split; [set_solver|lra]].
Defined.

End TableFacts.

(** ** The error metrics and the parity plot *)

Module EvaluationFacts.
Import Battery Labels Evaluation AutoMPG AutoMPGFacts.
Local Open Scope R_scope.

Lemma foldl_Rmin_le (r : list R) : forall x,
  foldl Rmin x r <= x /\ forall v, v ∈ r -> foldl Rmin x r <= v.
Proof.
  induction r as [|a r IH]; intros x; simpl.
  - split; [lra|]. intros v Hv. inversion Hv.
  - destruct (IH (Rmin x a)) as [H1 H2].
    pose proof (Rmin_l x a). pose proof (Rmin_r x a).
    split; [lra|]. intros v Hv. apply elem_of_cons in Hv.
    destruct Hv as [->|Hv]; [lra|now apply H2].
Qed.

Lemma foldl_Rmax_ge (r : list R) : forall x,
  x <= foldl Rmax x r /\ forall v, v ∈ r -> v <= foldl Rmax x r.
Proof.
  induction r as [|a r IH]; intros x; simpl.
  - split; [lra|]. intros v Hv. inversion Hv.
  - destruct (IH (Rmax x a)) as [H1 H2].
    pose proof (Rmax_l x a). pose proof (Rmax_r x a).
    split; [lra|]. intros v Hv. apply elem_of_cons in Hv.
    destruct Hv as [->|Hv]; [lra|now apply H2].
Qed.

Lemma np_min_spec (a : list R) (m : R) :
  np_min a = Some m -> forall v, v ∈ a -> m <= v.
Proof.
  destruct a as [|x r]; [discriminate|]. intros [= <-] v Hv.
  destruct (foldl_Rmin_le r x) as [H1 H2].
  apply elem_of_cons in Hv. destruct Hv as [->|Hv]; [assumption|now apply H2].
Qed.

Lemma np_max_spec (a : list R) (m : R) :
  np_max a = Some m -> forall v, v ∈ a -> v <= m.
Proof.
  destruct a as [|x r]; [discriminate|]. intros [= <-] v Hv.
  destruct (foldl_Rmax_ge r x) as [H1 H2].
  apply elem_of_cons in Hv. destruct Hv as [->|Hv]; [assumption|now apply H2].
Qed.

Lemma cell_sum_cons (c : option R) (a : list (option R)) :
  cell_sum (c :: a) =
  match c, cell_sum a with Some x, Some s => Some (x + s) | _, _ => None end.
Proof. reflexivity. Qed.

(** The mean of an array whose cells are all numbers. *)
Lemma np_mean_zip (f : R -> R -> option R) (g : R -> R -> R) (ps : list R) :
  forall ts : list R,
  length ps = length ts -> ts <> [] ->
  (forall p t, t ∈ ts -> f p t = Some (g p t)) ->
  np_mean (zip_with f ps ts) =
  Some (rsum (zip_with g ps ts) / INR (length ts)).
Proof.
  intros ts Hlen Hne Hf.
  assert (Hsum : cell_sum (zip_with f ps ts) = Some (rsum (zip_with g ps ts))).
  { clear Hne. revert ts Hlen Hf.
    induction ps as [|p ps IH]; intros [|t ts] Hlen Hf; try discriminate;
      [reflexivity|].
    simpl zip_with. rewrite cell_sum_cons, rsum_cons, Hf by left.
    rewrite IH; [reflexivity|now injection Hlen|].
    intros p' t' Ht'. apply Hf. now right. }
  unfold np_mean. rewrite Hsum. simpl.
  rewrite length_zip_with, Hlen, Nat.min_id. unfold cell_div.
  destruct (decide (INR (length ts) = 0)) as [H0|_]; [|reflexivity].
  exfalso. destruct ts as [|t0 ts0]; [congruence|].
  apply (not_0_INR (length (t0 :: ts0))); [simpl; lia|exact H0].
Qed.

Lemma rsum_zip_nonneg (g : R -> R -> R) (ps : list R) : forall ts : list R,
  (forall p t, t ∈ ts -> 0 <= g p t) -> 0 <= rsum (zip_with g ps ts).
Proof.
  induction ps as [|p ps IH]; intros [|t ts] Hg; simpl zip_with; try (simpl; lra).
  rewrite rsum_cons. specialize (IH ts (fun p' t' Ht' => Hg p' t' ltac:(now right))).
  specialize (Hg p t ltac:(left)). lra.
Qed.

Lemma rsum_zip_le (g h : R -> R -> R) (ps : list R) : forall ts : list R,
  (forall p t, t ∈ ts -> g p t <= h p t) ->
  rsum (zip_with g ps ts) <= rsum (zip_with h ps ts).
Proof.
  induction ps as [|p ps IH]; intros [|t ts] Hg; simpl zip_with; try (simpl; lra).
  rewrite !rsum_cons. specialize (IH ts (fun p' t' Ht' => Hg p' t' ltac:(now right))).
  specialize (Hg p t ltac:(left)). lra.
Qed.

Lemma pow10_pos (v : R) : 0 < pow10 v.
Proof. unfold pow10, Rpower. apply exp_pos. Qed.

Lemma pow10_le (u v : R) : u <= v -> pow10 u <= pow10 v.
Proof. intros H. unfold pow10. apply Rle_Rpower; lra. Qed.

Lemma rsum_zip_bound (g : R -> R -> R) (B : R) (ps : list R) : forall ts : list R,
  0 <= B -> (forall p t, p ∈ ps -> t ∈ ts -> g p t <= B) ->
  rsum (zip_with g ps ts) <= INR (length ts) * B.
Proof.
  induction ps as [|p ps IH]; intros ts HB Hg.
  - simpl zip_with. change (rsum []) with 0.
    apply Rmult_le_pos; [apply pos_INR|exact HB].
  - destruct ts as [|t ts].
    + simpl. lra.
    + cbn [zip_with]. rewrite rsum_cons.
      change (length (t :: ts)) with (S (length ts)). rewrite S_INR.
      specialize (IH ts HB (fun p' t' Hp' Ht' => Hg p' t' ltac:(now right) ltac:(now right))).
      specialize (Hg p t ltac:(left) ltac:(left)). lra.
Qed.

Lemma pow10_plus (u v : R) : pow10 (u + v) = pow10 u * pow10 v.
Proof. unfold pow10. apply Rpower_plus. Qed.

Lemma pow10_opp (v : R) : pow10 (- v) = / pow10 v.
Proof. unfold pow10. apply Rpower_Ropp. Qed.

(** X15. With [logy = True], at least one cell in the set, and labels and
    predictions whose powers of ten are [float32] numbers (between -38 and
    38), the three metrics are numbers, none is negative, the percent error
    relative to the largest life ([mape]) is not above the percent error
    relative to each life ([mapre]), and they stay within the range of the
    floats: the loss is at most [76^2] and [mapre] at most [100 * 10^76]. *)
Theorem metrics_bounds (ypred y : list R) :
  length ypred = length y -> y <> [] ->
  (forall v, v ∈ ypred -> - max_exponent <= v <= max_exponent) ->
  (forall v, v ∈ y -> - max_exponent <= v <= max_exponent) ->
  exists l a b,
    error_metrics true ypred y = Some (mk_metrics (Some l) (Some a) (Some b)) /\
    0 <= l <= (2 * max_exponent) ^ 2 /\
    0 <= b /\ b <= a /\ a <= 100 * pow10 (2 * max_exponent).
Proof.
  intros Hlen Hne HP HY. unfold error_metrics.
  destruct (np_max y) as [M|] eqn:HM; [|destruct y; [congruence|discriminate]].
  pose proof (np_max_spec y M HM) as HMle. simpl.
  assert (HlenT : length (pow10 <$> ypred) = length (pow10 <$> y))
    by now rewrite !length_fmap.
  assert (HneT : pow10 <$> y <> []) by (destruct y; [congruence|discriminate]).
  assert (HT : forall t, t ∈ pow10 <$> y ->
                 0 < t /\ t <= pow10 M /\
                 pow10 (- max_exponent) <= t <= pow10 max_exponent).
  { intros t Ht. apply list_elem_of_fmap in Ht. destruct Ht as (u & -> & Hu).
    destruct (HY u Hu).
    repeat split; [apply pow10_pos|apply pow10_le, HMle, Hu|now apply pow10_le..]. }
  assert (HPw : forall p, p ∈ pow10 <$> ypred -> 0 < p <= pow10 max_exponent).
  { intros p Hp. apply list_elem_of_fmap in Hp. destruct Hp as (u & -> & Hu).
    destruct (HP u Hu). split; [apply pow10_pos|now apply pow10_le]. }
  rewrite (np_mean_zip _ (fun p t => (p - t) ^ 2) ypred y Hlen Hne)
    by reflexivity.
  rewrite (np_mean_zip _ (fun p t => Rabs (p - t) / t) _ _ HlenT HneT).
  2:{ intros p t Ht. unfold cell_div.
      destruct (decide (t = 0)) as [->|_]; [|reflexivity].
      destruct (HT 0 Ht). lra. }
  rewrite (np_mean_zip _ (fun p t => Rabs (p - t) / pow10 M) _ _ HlenT HneT).
  2:{ intros p t Ht. unfold cell_div.
      destruct (decide (pow10 M = 0)) as [H0|_]; [|reflexivity].
      pose proof (pow10_pos M). lra. }
  simpl. eexists _, _, _. split; [reflexivity|].
  assert (Hn : 0 < INR (length y)).
  { apply lt_0_INR. destruct y; [congruence|simpl; lia]. }
  assert (HnT : 0 < INR (length (pow10 <$> y))) by now rewrite length_fmap.
  assert (Hinv : 0 < / INR (length y)) by now apply Rinv_0_lt_compat.
  assert (HinvT : 0 < / INR (length (pow10 <$> y))) by now apply Rinv_0_lt_compat.
  assert (HM0 : 0 < pow10 M) by apply pow10_pos.
  assert (Hmax : 0 <= max_exponent) by (unfold max_exponent; lra).
  split; [split|split; [|split]].
  - apply Rmult_le_pos; [|lra]. apply rsum_zip_nonneg.
    intros p t _. apply pow2_ge_0.
  - apply (Rmult_le_reg_r (INR (length y))); [exact Hn|].
    unfold Rdiv. rewrite Rmult_assoc, Rinv_l, Rmult_1_r by lra.
    rewrite (Rmult_comm _ (INR (length y))).
    apply rsum_zip_bound; [apply pow2_ge_0|].
    intros p t Hp Ht. destruct (HP p Hp), (HY t Ht). nra.
  - apply Rmult_le_pos; [lra|]. apply Rmult_le_pos; [|lra].
    apply rsum_zip_nonneg. intros p t _.
    apply Rmult_le_pos; [apply Rabs_pos|]. apply Rlt_le, Rinv_0_lt_compat, HM0.
  - apply Rmult_le_compat_l; [lra|]. apply Rmult_le_compat_r; [lra|].
    apply rsum_zip_le. intros p t Ht. destruct (HT t Ht) as (Ht0 & HtM & _).
    unfold Rdiv. apply Rmult_le_compat_l; [apply Rabs_pos|].
    apply Rinv_le_contravar; assumption.
  - apply Rmult_le_compat_l; [lra|].
    apply (Rmult_le_reg_r (INR (length (pow10 <$> y)))); [exact HnT|].
    unfold Rdiv. rewrite Rmult_assoc, Rinv_l, Rmult_1_r by lra.
    rewrite (Rmult_comm _ (INR (length (pow10 <$> y)))).
    apply rsum_zip_bound; [apply Rlt_le, pow10_pos|].
    intros p t Hp Ht. destruct (HPw p Hp) as [Hp0 HpM].
    destruct (HT t Ht) as (Ht0 & _ & Htm & HtM).
    replace (2 * max_exponent) with (max_exponent + max_exponent) by ring.
    rewrite pow10_plus.
    assert (Hi : / t <= pow10 max_exponent).
    { replace (pow10 max_exponent) with (/ pow10 (- max_exponent))
        by (rewrite pow10_opp, Rinv_inv; reflexivity).
      apply Rinv_le_contravar; [apply pow10_pos|exact Htm]. }
    assert (Ha : Rabs (p - t) <= pow10 max_exponent).
    { unfold Rabs. destruct (Rcase_abs (p - t)); lra. }
    assert (Hit : 0 < / t) by now apply Rinv_0_lt_compat.
    pose proof (pow10_pos max_exponent) as Hpm.
    apply Rmult_le_compat; [apply Rabs_pos|lra|exact Ha|exact Hi].
Qed.

Lemma metrics_bounds_witness :
  exists l a b,
    error_metrics true [3; 2] [2; 3] = Some (mk_metrics (Some l) (Some a) (Some b)) /\
    0 <= l <= (2 * max_exponent) ^ 2 /\
    0 <= b /\ b <= a /\ a <= 100 * pow10 (2 * max_exponent).
Proof.
  apply metrics_bounds; [reflexivity|discriminate| |];
    intros v Hv; unfold max_exponent;
    repeat (apply elem_of_cons in Hv; destruct Hv as [->|Hv]; [lra|]);
    inversion Hv.
Defined.





(** The least and the largest value of the two arrays of one set. *)
Lemma set_limits (ps ts : list R) :
  match np_min ps, np_min ts, np_max ps, np_max ts with
  | Some a, Some b, Some c, Some e =>
      ps <> [] /\ ts <> [] /\
      (forall v, v ∈ ps -> a <= v <= c) /\ (forall v, v ∈ ts -> b <= v <= e) /\
      a <= c /\ b <= e
  | _, _, _, _ => ps = [] \/ ts = []
  end.
Proof.
  destruct ps as [|p ps], ts as [|t ts]; simpl; auto.
  pose proof (np_min_spec (p :: ps) _ eq_refl) as H1.
  pose proof (np_max_spec (p :: ps) _ eq_refl) as H2.
  pose proof (np_min_spec (t :: ts) _ eq_refl) as H3.
  pose proof (np_max_spec (t :: ts) _ eq_refl) as H4.
  simpl in H1, H2, H3, H4.
  repeat split; try discriminate; auto.
  - specialize (H1 p ltac:(left)). specialize (H2 p ltac:(left)). lra.
  - specialize (H3 t ltac:(left)). specialize (H4 t ltac:(left)). lra.
Qed.

Lemma or_imp (A B C D : Prop) : (A -> C) /\ (B -> D) -> A \/ B -> C \/ D.
Proof. tauto. Qed.

Ltac raise_on d Hset Hnil :=
  cbn [mbind option_bind]; split;
  [split; [intros _; exists d;
           apply (or_imp _ _ _ _ (conj (proj1 (Hnil _)) (proj1 (Hnil _))) Hset)
          |reflexivity]
  |intros ? ? [=]].

(** X17. The parity plot raises exactly when a set has no cell (as the
    training set of a split of few cells); otherwise its limits enclose
    every value drawn, predicted or experimental, of every set. *)
Theorem parity_limits_enclose (logy : bool) (ypred y : dset -> list R) :
  (parity_limits logy ypred y = None <-> exists d, ypred d = [] \/ y d = []) /\
  (forall lwr upr, parity_limits logy ypred y = Some (lwr, upr) ->
     lwr <= upr /\ forall v, plotted logy ypred y v -> lwr <= v <= upr).
Proof.
  unfold parity_limits, dsetL, plotted. cbn [mapM].
  pose proof (set_limits (of_label logy <$> ypred trn) (of_label logy <$> y trn)) as H1.
  pose proof (set_limits (of_label logy <$> ypred val) (of_label logy <$> y val)) as H2.
  pose proof (set_limits (of_label logy <$> ypred tst) (of_label logy <$> y tst)) as H3.
  assert (Hnil : forall l : list R, of_label logy <$> l = [] <-> l = []).
  { intros l. destruct l; simpl; split; intros H; (reflexivity || discriminate H). }
  destruct (np_min (of_label logy <$> ypred trn)) as [a1|]; [|clear H2 H3; raise_on trn H1 Hnil].
  destruct (np_min (of_label logy <$> y trn)) as [b1|]; [|clear H2 H3; raise_on trn H1 Hnil].
  destruct (np_max (of_label logy <$> ypred trn)) as [c1|]; [|clear H2 H3; raise_on trn H1 Hnil].
  destruct (np_max (of_label logy <$> y trn)) as [e1|]; [|clear H2 H3; raise_on trn H1 Hnil].
  destruct (np_min (of_label logy <$> ypred val)) as [a2|]; [|clear H1 H3; raise_on val H2 Hnil].
  destruct (np_min (of_label logy <$> y val)) as [b2|]; [|clear H1 H3; raise_on val H2 Hnil].
  destruct (np_max (of_label logy <$> ypred val)) as [c2|]; [|clear H1 H3; raise_on val H2 Hnil].
  destruct (np_max (of_label logy <$> y val)) as [e2|]; [|clear H1 H3; raise_on val H2 Hnil].
  destruct (np_min (of_label logy <$> ypred tst)) as [a3|]; [|clear H1 H2; raise_on tst H3 Hnil].
  destruct (np_min (of_label logy <$> y tst)) as [b3|]; [|clear H1 H2; raise_on tst H3 Hnil].
  destruct (np_max (of_label logy <$> ypred tst)) as [c3|]; [|clear H1 H2; raise_on tst H3 Hnil].
  destruct (np_max (of_label logy <$> y tst)) as [e3|]; [|clear H1 H2; raise_on tst H3 Hnil].
  destruct H1 as (N1 & N1' & P1 & T1 & L1 & L1').
  destruct H2 as (N2 & N2' & P2 & T2 & L2 & L2').
  destruct H3 as (N3 & N3' & P3 & T3 & L3 & L3').
  cbn [mbind option_bind mret option_ret fmap list_fmap concat app fst snd np_min np_max foldl].
  set (ymin := Rmin (Rmin (Rmin (Rmin (Rmin a1 b1) a2) b2) a3) b3).
  set (ymax := Rmax (Rmax (Rmax (Rmax (Rmax c1 e1) c2) e2) c3) e3).
  assert (Hmin : ymin <= a1 /\ ymin <= b1 /\ ymin <= a2 /\ ymin <= b2 /\
                 ymin <= a3 /\ ymin <= b3).
  { unfold ymin.
    pose proof (Rmin_l a1 b1). pose proof (Rmin_r a1 b1).
    pose proof (Rmin_l (Rmin a1 b1) a2). pose proof (Rmin_r (Rmin a1 b1) a2).
    pose proof (Rmin_l (Rmin (Rmin a1 b1) a2) b2).
    pose proof (Rmin_r (Rmin (Rmin a1 b1) a2) b2).
    pose proof (Rmin_l (Rmin (Rmin (Rmin a1 b1) a2) b2) a3).
    pose proof (Rmin_r (Rmin (Rmin (Rmin a1 b1) a2) b2) a3).
    pose proof (Rmin_l (Rmin (Rmin (Rmin (Rmin a1 b1) a2) b2) a3) b3).
    pose proof (Rmin_r (Rmin (Rmin (Rmin (Rmin a1 b1) a2) b2) a3) b3).
    repeat split; lra. }
  assert (Hmax : c1 <= ymax /\ e1 <= ymax /\ c2 <= ymax /\ e2 <= ymax /\
                 c3 <= ymax /\ e3 <= ymax).
  { unfold ymax.
    pose proof (Rmax_l c1 e1). pose proof (Rmax_r c1 e1).
    pose proof (Rmax_l (Rmax c1 e1) c2). pose proof (Rmax_r (Rmax c1 e1) c2).
    pose proof (Rmax_l (Rmax (Rmax c1 e1) c2) e2).
    pose proof (Rmax_r (Rmax (Rmax c1 e1) c2) e2).
    pose proof (Rmax_l (Rmax (Rmax (Rmax c1 e1) c2) e2) c3).
    pose proof (Rmax_r (Rmax (Rmax (Rmax c1 e1) c2) e2) c3).
    pose proof (Rmax_l (Rmax (Rmax (Rmax (Rmax c1 e1) c2) e2) c3) e3).
    pose proof (Rmax_r (Rmax (Rmax (Rmax (Rmax c1 e1) c2) e2) c3) e3).
    repeat split; lra. }
  destruct Hmin as (Ma1 & Mb1 & Ma2 & Mb2 & Ma3 & Mb3).
  destruct Hmax as (Mc1 & Me1 & Mc2 & Me2 & Mc3 & Me3).
  clearbody ymin ymax.
  split.
  - split; [discriminate|]. intros [d Hd].
    apply (or_imp _ _ _ _ (conj (proj2 (Hnil _)) (proj2 (Hnil _)))) in Hd.
    destruct d; tauto.
  - intros lwr upr [= <- <-].
    assert (Hrng : ymin <= ymax) by lra.
    split; [lra|]. intros v [d Hv].
    destruct d, Hv as [Hv|Hv];
      [specialize (P1 v Hv)|specialize (T1 v Hv)|specialize (P2 v Hv)
      |specialize (T2 v Hv)|specialize (P3 v Hv)|specialize (T3 v Hv)]; lra.
Qed.

Lemma parity_limits_enclose_witness :
  let ypred := fun d : dset => match d with trn => [2; 3] | val => [2.5] | tst => [1] end in
  let y := fun d : dset => match d with trn => [2; 3.5] | val => [3] | tst => [2] end in
  exists lwr upr, parity_limits false ypred y = Some (lwr, upr) /\ lwr <= 2.5 <= upr.
Proof.
  intros ypred y.
  destruct (parity_limits false ypred y) as [[lwr upr]|] eqn:E.
  - exists lwr, upr. split; [reflexivity|].
    apply (proj2 (parity_limits_enclose false ypred y) lwr upr E).
    exists val. left. simpl. set_solver.
  - apply (proj1 (parity_limits_enclose false ypred y)) in E.
    destruct E as [[] [E|E]]; discriminate E.
Defined.


End EvaluationFacts.

(** ** The feature arrays of [get_data] *)

Module CurveFacts.
Import Battery Curves SplitFacts DataFacts.

Lemma farr_of_None (v : array2) : farr_of v = None <-> rows v = [].
Proof. unfold farr_of. destruct (rows v); split; intros H; congruence. Qed.

Lemma farr_of_Some (v x : array2) :
  farr_of v = Some x ->
  rows v <> [] /\ nrows x = (nrows v - 1)%nat /\ ncols x = ncols v /\
  (well_shaped v -> well_shaped x /\ (1 <= nrows v)%nat).
Proof.
  unfold farr_of. destruct (rows v) as [|first rest] eqn:E; [discriminate|].
  intros [= <-]. simpl. split; [discriminate|]. split; [reflexivity|].
  split; [reflexivity|]. intros [Hn Hc]. rewrite E in Hn, Hc. simpl in Hn.
  apply Forall_cons in Hc. destruct Hc as [Hf Hr].
  split; [|lia]. split; simpl.
  - rewrite length_fmap. lia.
  - apply Forall_fmap. eapply Forall_impl; [exact Hr|]. intros r Hlen. simpl.
    rewrite length_zip_with. cbv beta in Hlen. lia.
Qed.

Lemma np_stack_Some (l a : list array2) :
  np_stack l = Some a <->
  a = l /\ l <> [] /\ exists r c, Forall (fun x => nrows x = r /\ ncols x = c) l.
Proof.
  unfold np_stack.
  destruct l as [|x l]; [split; [discriminate|intros (_ & H & _); congruence]|].
  destruct (forallb (same_shape x) (x :: l)) eqn:E.
  - split; [|intros (-> & _); reflexivity]. intros [= <-].
    split; [reflexivity|]. split; [discriminate|]. exists (nrows x), (ncols x).
    apply Forall_forall. intros z Hz. apply list_elem_of_In in Hz.
    rewrite forallb_forall in E. specialize (E z Hz). unfold same_shape in E.
    apply andb_true_iff in E. destruct E as [E1 E2].
    apply Nat.eqb_eq in E1, E2. now split.
  - split; [discriminate|]. intros (_ & _ & r & c & Hall). exfalso.
    assert (forallb (same_shape x) (x :: l) = true); [|congruence].
    apply forallb_forall. intros z Hz. apply list_elem_of_In in Hz.
    rewrite Forall_forall in Hall. destruct (Hall z Hz) as [Hz1 Hz2].
    destruct (Hall x ltac:(left)) as [Hx1 Hx2].
    unfold same_shape. rewrite Hz1, Hz2, Hx1, Hx2. now rewrite !Nat.eqb_refl.
Qed.

(** What [Xin] is when [get_data] gets that far. *)
Lemma Xin_Some_inv (groups : list group) (a : list array2) :
  Forall (fun g => well_shaped (VvC g)) groups ->
  Xin groups = Some a ->
  groups <> [] /\
  mapM (fun g => farr_of (VvC g)) groups = Some a /\
  Forall2 (fun g x => (1 <= nrows (VvC g))%nat /\ nrows x = (nrows (VvC g) - 1)%nat /\
                      ncols x = ncols (VvC g) /\ well_shaped x) groups a /\
  exists r c, Forall (fun x => nrows x = r /\ ncols x = c) a.
Proof.
  intros Hws HX. unfold Xin in HX.
  destruct (mapM (fun g => farr_of (VvC g)) groups) as [farrs|] eqn:Hm;
    [|discriminate]. cbn [mbind option_bind] in HX.
  apply np_stack_Some in HX. destruct HX as (-> & Hne & r & c & Hall).
  pose proof (mapM_Some_1 _ _ _ Hm) as HF.
  split; [intros ->; inversion HF; congruence|]. split; [reflexivity|].
  split; [|eauto].
  clear Hne Hall Hm. induction HF as [|g x groups farrs Hgx _ IH]; [constructor|].
  apply Forall_cons in Hws. destruct Hws as [Hg Hws].
  constructor; [|now apply IH].
  destruct (farr_of_Some _ _ Hgx) as (_ & H1 & H2 & H3).
  destruct (H3 Hg) as [H4 H5]. auto.
Qed.

(** X18. When [get_data] gets its feature array [Xin], the file has a
    cell, every cell has a curve for at least one cycle, there is one array
    of features for each cell, with one row less than the cell has cycles,
    all of one shape, and [nfeat] is the size of that shape.  Each set then
    gets as many arrays as [n] counts cells for it. *)
Theorem Xin_shape (argsort : list Z -> list nat) (groups : list group)
    (rand : nat -> Z) (a : list array2) :
  Forall (fun g => well_shaped (VvC g)) groups ->
  Xin groups = Some a ->
  groups <> [] /\
  Forall2 (fun g x => (1 <= nrows (VvC g))%nat /\ nrows x = (nrows (VvC g) - 1)%nat /\
                      ncols x = ncols (VvC g) /\ well_shaped x) groups a /\
  (exists r c, Forall (fun x => nrows x = r /\ ncols x = c) a /\
               nfeat groups = Some (r * c)%nat) /\
  (forall d, exists xd, X argsort groups rand d = Some xd /\
     length xd = n argsort ((fun g => aname (info g)) <$> groups) rand d).
Proof.
  intros Hws HX.
  destruct (Xin_Some_inv groups a Hws HX) as (Hne & Hm & HF & r & c & Hall).
  pose proof (length_mapM _ _ _ Hm) as Hlen.
  split; [exact Hne|]. split; [exact HF|]. split.
  - exists r, c. split; [exact Hall|]. unfold nfeat. rewrite Hm.
    cbn [mbind option_bind].
    destruct (last a) as [x|] eqn:Hl.
    + simpl. f_equal. unfold size. rewrite Forall_forall in Hall.
      assert (Hx : x ∈ a).
      { rewrite last_lookup in Hl. eapply list_elem_of_lookup_2; eassumption. }
      now destruct (Hall x Hx) as [-> ->].
    + exfalso. destruct a as [|x0 a0]; [destruct groups; [congruence|discriminate]|].
      rewrite last_lookup in Hl. apply lookup_ge_None in Hl. simpl in Hl. lia.
  - intros d. unfold X. rewrite HX. cbn [mbind option_bind].
    eexists. split; [reflexivity|]. unfold n.
    apply mask_select_length.
    destruct d; cbn [iD].
    + unfold iD_trn, mask_mul, np_invert.
      rewrite length_zip_with, !length_fmap, iD_val_length, iD_tst_length.
      unfold ncell. rewrite length_fmap. lia.
    + rewrite iD_val_length. unfold ncell. rewrite length_fmap. lia.
    + rewrite iD_tst_length. unfold ncell. rewrite length_fmap. lia.
Qed.

(** X19. [get_data] raises before it has its features exactly when the
    file has no cell, or a cell has no curve, or two cells have curves of
    different shapes. *)
Theorem Xin_raises (groups : list group) :
  Forall (fun g => well_shaped (VvC g)) groups ->
  (Xin groups = None <->
   groups = [] \/
   Exists (fun g => nrows (VvC g) = 0%nat) groups \/
   exists g g', g ∈ groups /\ g' ∈ groups /\
     (nrows (VvC g) <> nrows (VvC g') \/ ncols (VvC g) <> ncols (VvC g'))).
Proof.
  intros Hws. split.
  - intros HX. unfold Xin in HX.
    destruct (mapM (fun g => farr_of (VvC g)) groups) as [farrs|] eqn:Hm.
    + cbn [mbind option_bind] in HX.
      destruct groups as [|g0 groups]; [now left|]. right.
      destruct (decide (Exists (fun g => nrows (VvC g) = 0%nat) (g0 :: groups)))
        as [|Hex]; [now left|]. right.
      destruct (decide (Forall (fun g => nrows (VvC g) = nrows (VvC g0) /\
                                         ncols (VvC g) = ncols (VvC g0)) (g0 :: groups)))
        as [Hsame|Hdiff].
      * exfalso. apply mapM_Some_1 in Hm.
        assert (Hall : Forall (fun x => nrows x = (nrows (VvC g0) - 1)%nat /\
                                        ncols x = ncols (VvC g0)) farrs).
        { clear HX Hex Hws. revert Hsame.
          generalize (nrows (VvC g0)) (ncols (VvC g0)). intros r0 c0 Hsame.
          induction Hm as [|g x gs fs Hgx _ IH]; [constructor|].
          apply Forall_cons in Hsame. destruct Hsame as [[Hr Hc] Hsame].
          constructor; [|now apply IH].
          destruct (farr_of_Some _ _ Hgx) as (_ & H1 & H2 & _).
          rewrite H1, H2, Hr, Hc. now split. }
        assert (Hne' : farrs <> []) by (intros ->; inversion Hm).
        rewrite (proj2 (np_stack_Some farrs farrs)) in HX by eauto. discriminate.
      * apply not_Forall_Exists in Hdiff; [|intros g; apply _].
        apply Exists_exists in Hdiff. destruct Hdiff as (g & Hg & Hd).
        exists g, g0. split; [assumption|]. split; [left|].
        unfold compose in Hd.
        destruct (decide (nrows (VvC g) = nrows (VvC g0))); [right|left]; tauto.
    + right. left. apply mapM_None_1 in Hm.
      apply Exists_exists in Hm. destruct Hm as (g & Hg & Hnone).
      apply Exists_exists. exists g. split; [assumption|].
      apply farr_of_None in Hnone.
      rewrite Forall_forall in Hws. destruct (Hws g Hg) as [Hn _].
      rewrite Hnone in Hn. simpl in Hn. lia.
  - intros H. destruct (Xin groups) as [a|] eqn:HX; [exfalso|reflexivity].
    destruct (Xin_Some_inv groups a Hws HX) as (Hne & _ & HF & r & c & Hall).
    assert (Hg : Forall (fun g => (1 <= nrows (VvC g))%nat /\
                                  (nrows (VvC g) - 1)%nat = r /\ ncols (VvC g) = c)
                        groups).
    { clear Hne HX Hws H. induction HF as [|g x gs fs Hgx _ IH]; [constructor|].
      apply Forall_cons in Hall. destruct Hall as [[Hr Hc] Hall].
      constructor; [|now apply IH].
      destruct Hgx as (H1 & H2 & H3 & _). rewrite <- H2, <- H3. auto. }
    rewrite Forall_forall in Hg.
    destruct H as [->|[Hex|(g & g' & Hin & Hin' & Hd)]].
    + congruence.
    + apply Exists_exists in Hex. destruct Hex as (g & Hin & H0).
      destruct (Hg g Hin). lia.
    + destruct (Hg g Hin) as (? & ? & ?). destruct (Hg g' Hin') as (? & ? & ?). lia.
Qed.

Lemma Xin_raises_witness :
  let curve := mk_array2 2 2 [[1%Q; 2%Q]; [3%Q; 5%Q]] in
  let short := mk_array2 0 2 [] in
  Xin [mk_group (mk_cell "Batch1_c0" 300%Q) curve; mk_group (mk_cell "Batch1_c1" 500%Q) short]
  = None.
Proof.
  intros curve short. apply Xin_raises.
  - repeat constructor.
  - right. left. apply Exists_cons. right. apply Exists_cons. now left.
Defined.

Lemma Xin_shape_witness :
  let curve := mk_array2 2 2 [[1%Q; 2%Q]; [3%Q; 5%Q]] in
  let groups := [mk_group (mk_cell "Batch1_c0" 300%Q) curve;
                 mk_group (mk_cell "Batch3_c0" 500%Q) curve] in
  exists r c, Forall (fun x => nrows x = r /\ ncols x = c)
                     [mk_array2 1 2 [[(3 - 1)%Q; (5 - 2)%Q]]; mk_array2 1 2 [[(3 - 1)%Q; (5 - 2)%Q]]] /\
              nfeat groups = Some (r * c)%nat.
Proof.
  intros curve groups.
  destruct (Xin_shape np_argsort groups (fun _ => 1%Z)
              [mk_array2 1 2 [[(3 - 1)%Q; (5 - 2)%Q]]; mk_array2 1 2 [[(3 - 1)%Q; (5 - 2)%Q]]])
    as (_ & _ & H & _); [repeat constructor|reflexivity|exact H].
Defined.

End CurveFacts.

(** ** More on [build_model] *)

Module BuildFacts.
Import Network NetworkFacts.
Local Open Scope Z_scope.

Lemma build_model_clamp (n_X n_layers h : Z) :
  build_model n_X n_layers h =
  build_model n_X (Z.of_nat (S (Z.to_nat (n_layers - 1)))) h.
Proof.
  unfold build_model. do 3 f_equal. lia.
Qed.

Lemma forallb_replicate {A} (f : A -> bool) (k : nat) (x : A) :
  f x = true -> forallb f (replicate k x) = true.
Proof. intros H. induction k as [|k IH]; [reflexivity|]. simpl. now rewrite H, IH. Qed.

(** X14. [build_model] raises for a [hidden_size] that is not positive
    (its first [layers.Dense] does).  For a positive one it makes at least
    one hidden layer: [n_layers] hidden layers of [hidden_size] units when
    [n_layers >= 1], one when it is less, then the linear output; its
    parameters are counted by the closed form of the notebook's concept
    review. *)
Theorem build_model_shape (n_X n_layers h : Z) :
  (h <= 0 -> constructed (build_model n_X n_layers h) = None) /\
  (0 < h ->
   exists m, constructed (build_model n_X n_layers h) = Some m /\
     layers m =
       replicate (Z.to_nat (Z.max n_layers 1)) (mk_dense h relu) ++ [mk_dense 1 linear] /\
     input_dim m = n_X /\
     count_params m =
       (n_X + 1) * h + (Z.max n_layers 1 - 1) * ((h + 1) * h) + (h + 1)).
Proof.
  assert (Hl : layers (build_model n_X n_layers h) =
               replicate (Z.to_nat (Z.max n_layers 1)) (mk_dense h relu) ++
               [mk_dense 1 linear]).
  { rewrite build_model_clamp, build_model_layers. do 2 f_equal. lia. }
  assert (Hk : exists k, Z.to_nat (Z.max n_layers 1) = S k)
    by (exists (Z.to_nat (Z.max n_layers 1) - 1)%nat; lia).
  destruct Hk as [k Hk].
  split.
  - intros Hh. unfold constructed. rewrite Hl, Hk. simpl.
    unfold Dense_accepts at 1. simpl units.
    now rewrite (proj2 (Z.ltb_ge 0 h) Hh).
  - intros Hh. exists (build_model n_X n_layers h). split; [|split; [|split]].
    + unfold constructed. rewrite Hl, forallb_app, forallb_replicate; [reflexivity|].
      unfold Dense_accepts. simpl. now apply Z.ltb_lt.
    + exact Hl.
    + apply build_model_input_dim.
    + rewrite build_model_clamp, count_params_build_model.
      replace (Z.of_nat (Z.to_nat (n_layers - 1))) with (Z.max n_layers 1 - 1) by lia.
      reflexivity.
Qed.

Lemma build_model_shape_witness :
  constructed (build_model 9 3 0) = None /\
  exists m, constructed (build_model 9 0 128) = Some m /\
    layers m = [mk_dense 128 relu; mk_dense 1 linear] /\
    input_dim m = 9 /\ count_params m = 1409.
Proof.
  split.
  - apply (build_model_shape 9 3 0). lia.
  - apply (proj2 (build_model_shape 9 0 128)). lia.
Defined.

End BuildFacts.

(** ** Batch labels and substrings *)

Module NameFacts.
Import Battery.
Local Open Scope string_scope.

Lemma append_nil (b : string) : "" ++ b = b.
Proof. reflexivity. Qed.

Lemma append_cons (c : ascii) (a b : string) : String c a ++ b = String c (a ++ b).
Proof. reflexivity. Qed.

Lemma prefix_app (a s : string) :
  String.prefix a s = true <-> exists post, s = a ++ post.
Proof.
  revert s. induction a as [|c a IH]; intros s.
  - split; [intros _; now exists s|intros _; now destruct s].
  - destruct s as [|c' s]; [split; [discriminate|intros [post H]; discriminate]|].
    simpl. destruct (Ascii.ascii_dec c c') as [->|Hne].
    + rewrite IH. split; intros [post H]; exists post.
      * rewrite append_cons. now rewrite H.
      * rewrite append_cons in H. now injection H.
    + split; [discriminate|]. intros [post H]. rewrite append_cons in H. congruence.
Qed.

Lemma contains_nil (sub : string) : contains sub "" = String.prefix sub "" || false.
Proof. reflexivity. Qed.

Lemma contains_cons (sub : string) (c : ascii) (s : string) :
  contains sub (String c s) = String.prefix sub (String c s) || contains sub s.
Proof. reflexivity. Qed.

(** [sub in s] holds exactly when [sub] occurs in [s]. *)
Lemma contains_occurs (sub s : string) :
  contains sub s = true <-> exists pre post, s = pre ++ sub ++ post.
Proof.
  induction s as [|c s IH]; rewrite ?contains_nil, ?contains_cons;
    rewrite orb_true_iff, prefix_app.
  - split.
    + intros [[post H]|H]; [|discriminate]. now exists "", post.
    + intros (pre & post & H). left.
      destruct pre; [now exists post|rewrite append_cons in H; discriminate].
  - rewrite IH. split.
    + intros [[post H]|(pre & post & H)].
      * now exists "", post.
      * exists (String c pre), post. rewrite append_cons. now rewrite H.
    + intros (pre & post & H). destruct pre as [|c' pre].
      * left. now exists post.
      * right. exists pre, post. rewrite append_cons in H. congruence.
Qed.

(** X20. The batch label of a cell is read off its name: 1 when
    [Batch1] occurs in it, 2 when [Batch2] does and [Batch1] does not, 3
    when [Batch3] does and neither of the others, and 0 when none
    occurs. *)
Theorem batch_code_occurs (name : string) :
  let occurs sub := exists pre post, name = pre ++ sub ++ post in
  (batch_code name = 1%Z <-> occurs "Batch1") /\
  (batch_code name = 2%Z <-> occurs "Batch2" /\ ~ occurs "Batch1") /\
  (batch_code name = 3%Z <->
     occurs "Batch3" /\ ~ occurs "Batch1" /\ ~ occurs "Batch2") /\
  (batch_code name = 0%Z <->
     ~ occurs "Batch1" /\ ~ occurs "Batch2" /\ ~ occurs "Batch3").
Proof.
  intros occurs. unfold occurs.
  rewrite <- !contains_occurs. unfold batch_code.
  destruct (contains "Batch1" name), (contains "Batch2" name),
    (contains "Batch3" name); repeat split; intros; try discriminate;
    try reflexivity; try tauto; intuition discriminate.
Qed.

End NameFacts.
